(** * Backup/restore operator: reconciliation core

    A shallow embedding of the reconciliation core of the PostgreSQL
    backup/restore operator (package [backup_operator]) together with the
    properties its design document states about it.

    Conventions of the embedding.
    - Python [str] values are [string]s of ASCII characters; [lower] and
      [strip] act on the ASCII letters and the ASCII white space only.
    - A Python dict used as a record of fields (the [.status] of a custom
      resource, keyword arguments of [patch_status]) is a [gmap string value].
    - Calls to collaborators (Kubernetes clients, the vendor SDK, the clock)
      are answered by an environment [Env]; every call made by the core is
      appended to a trace.  Exceptions are values of [exn] carried by the
      [Raise] branch of [result]. *)

From Stdlib Require Import ZArith Bool Ascii String List Lia.
From stdpp Require Import gmap strings list.
Import ListNotations.

Local Open Scope string_scope.
Local Open Scope Z_scope.
Local Open Scope list_scope.

(** ** Python strings *)

Module PyStr.

Definition is_upper (c : ascii) : bool :=
  let n := nat_of_ascii c in (Nat.leb 65 n) && (Nat.leb n 90).

Definition lower_ascii (c : ascii) : ascii :=
  if is_upper c then ascii_of_nat (nat_of_ascii c + 32) else c.

(** [str.lower()] *)
Fixpoint lower (s : string) : string :=
  match s with
  | EmptyString => EmptyString
  | String c r => String (lower_ascii c) (lower r)
  end.

(** [str.isspace()] on one character: TAB, LF, VT, FF, CR, FS, GS, RS,
    US and the blank. *)
Definition isspace (c : ascii) : bool :=
  let n := nat_of_ascii c in
  ((Nat.leb 9 n) && (Nat.leb n 13)) || ((Nat.leb 28 n) && (Nat.leb n 32)).

Fixpoint lstrip_list (l : list ascii) : list ascii :=
  match l with
  | c :: r => if isspace c then lstrip_list r else l
  | [] => []
  end.

(** [str.strip()] *)
Definition strip (s : string) : string :=
  string_of_list_ascii
    (rev (lstrip_list (rev (lstrip_list (list_ascii_of_string s))))).

(** [s.startswith(p)] *)
Definition startswith (s p : string) : bool := String.prefix p s.

(** Truth value of a [str]: the empty string is falsy. *)
Definition truthy (s : string) : bool :=
  match s with EmptyString => false | _ => true end.

(** [p in s] on strings. *)
Fixpoint contains (s p : string) : bool :=
  String.prefix p s
  || match s with
     | EmptyString => false
     | String _ r => contains r p
     end.

(** [x in (a, b, ...)] on strings. *)
Definition in_tuple (x : string) (l : list string) : bool :=
  existsb (String.eqb x) l.

End PyStr.

(** ** commvault_api.py: the job status value object *)

Module CommvaultJobStatus.

Definition UNKNOWN : string := "Unknown".

(** The object holds one attribute, [_status]. *)
Record t := Build { _status : string }.

(** [__init__(status)]: [status if status else UNKNOWN]; the vendor
    hands over a string or [None]. *)
Definition init (status : option string) : t :=
  match status with
  | Some s => if PyStr.truthy s then Build s else Build UNKNOWN
  | None => Build UNKNOWN
  end.

Definition str (j : t) : string := _status j.

Definition lower (j : t) : string := PyStr.lower (_status j).

(** [__eq__] against another status object. *)
Definition eqb (a b : t) : bool := String.eqb (_status a) (_status b).

Definition is_unknown (j : t) : bool := String.eqb (_status j) UNKNOWN.

Definition is_terminal (j : t) : bool :=
  let low := lower j in
  PyStr.startswith low "completed"
  || PyStr.in_tuple (_status j) ["Failed"; "Killed"].

Definition is_success (j : t) : bool :=
  PyStr.startswith (lower j) "completed".

End CommvaultJobStatus.

Abbreviation JobStatus := CommvaultJobStatus.t.

(** ** The values [map_phase_from_status] and the daemon handle

    The argument of [map_phase_from_status] and the daemon's [status] /
    [last_status] variables hold [None], a [str] read from the resource
    body, or a [CommvaultJobStatus] object. *)

Inductive pystatus :=
| PyNone
| PyString (s : string)
| PyJob (j : JobStatus).

(** Truth value: [None] and [""] are falsy; a [CommvaultJobStatus]
    defines neither [__bool__] nor [__len__] and is always truthy. *)
Definition pystatus_truthy (v : pystatus) : bool :=
  match v with
  | PyNone => false
  | PyString s => PyStr.truthy s
  | PyJob _ => true
  end.

(** [str(v)] *)
Definition pystatus_str (v : pystatus) : string :=
  match v with
  | PyNone => "None"
  | PyString s => s
  | PyJob j => CommvaultJobStatus.str j
  end.

(** [status != last_status] where [status] is a [CommvaultJobStatus]:
    [__eq__] compares [_status] with the other object's [_status], or with
    the other value itself. *)
Definition job_ne (status : JobStatus) (last_status : pystatus) : bool :=
  negb match last_status with
       | PyJob o => CommvaultJobStatus.eqb status o
       | PyString s => String.eqb (CommvaultJobStatus._status status) s
       | PyNone => false
       end.

(** ** backup_operator.py: phase mapping *)

Definition map_phase_from_status (status : pystatus) : string :=
  if negb (pystatus_truthy status) || String.eqb (pystatus_str status) "Unknown"
  then "Pending"
  else
    let s := PyStr.strip (pystatus_str status) in
    let low := PyStr.lower s in
    if PyStr.startswith low "completed" then "Succeeded"
    else if PyStr.in_tuple low ["failed"; "killed"] then "Failed"
    else if PyStr.in_tuple low ["waiting"; "pending"] then "Pending"
    else "Running".



(** ** Exceptions and results *)

Inductive exn :=
| ApiException (status : Z) (text : string)
| TemporaryError (msg : string)
| PermanentError (msg : string)
| CommvaultApiException (msg : string)
| ValueError (msg : string)
| TypeError (msg : string)
| AttributeError (msg : string)
| SDKException (msg : string)
| OtherException (msg : string).

(** [str(e)] *)
Definition exn_str (e : exn) : string :=
  match e with
  | ApiException _ m | TemporaryError m | PermanentError m
  | CommvaultApiException m | ValueError m | TypeError m
  | AttributeError m | SDKException m | OtherException m => m
  end.

(** [e.status] when [e] is caught by [except ApiException as e]. *)
Definition api_status (e : exn) : option Z :=
  match e with ApiException c _ => Some c | _ => None end.

Definition is_commvault_exception (e : exn) : bool :=
  match e with CommvaultApiException _ => true | _ => false end.

Definition is_sdk_exception (e : exn) : bool :=
  match e with SDKException _ => true | _ => false end.

Inductive result (A : Type) :=
| Ok (a : A)
| Raise (e : exn).
Arguments Ok {A} a.
Arguments Raise {A} e.

(** ** Resource data: operation.py and the custom resource *)

(** JSON values kept in a resource [.status]; [VComposite] stands for an
    array or object, of which only emptiness is observed. *)
Inductive value :=
| VStr (s : string)
| VInt (n : Z)
| VBool (b : bool)
| VComposite (nonempty : bool).

Definition value_truthy (v : value) : bool :=
  match v with
  | VStr s => PyStr.truthy s
  | VInt n => negb (n =? 0)
  | VBool b => b
  | VComposite b => b
  end.

(** The fields of [.spec] the operator consumes; [cluster] is required
    by the resource schema, [None] is an absent key. *)
Record OpSpec := {
  spec_cluster : string;
  spec_action : option string;
  spec_operator : option string;
  spec_restore_mode : option string;
  spec_restore_date : option string
}.

(** One [postgresbackups] custom resource as the API serves it. *)
Record CR := {
  cr_namespace : string;
  cr_name : string;
  cr_deletionTimestamp : option string;
  cr_spec : OpSpec;
  cr_status : gmap string value
}.

Module Operation.

Record t := Build {
  name : string;
  cluster : string;
  action : string;
  operator : string;
  restore_date : string;
  restore_mode : string;
  namespace : string
}.

(** [x or d] on an optional string. *)
Definition or_default (x : option string) (d : string) : string :=
  match x with
  | Some s => if PyStr.truthy s then s else d
  | None => d
  end.

Definition init (name namespace : string) (spec : OpSpec) : result t :=
  let action := PyStr.lower (or_default (spec_action spec) "backup") in
  if negb (PyStr.in_tuple action ["backup"; "restore"]) then
    Raise (ValueError ("Unsupported action '" ++ action
                       ++ "'. Must be 'backup' or 'restore'."))
  else
    let is_restore := String.eqb action "restore" in
    Ok {| name := name;
          cluster := spec_cluster spec;
          action := action;
          operator := PyStr.lower (or_default (spec_operator spec) "zalando");
          restore_date :=
            if is_restore
            then match spec_restore_date spec with Some d => d | None => "" end
            else "";
          restore_mode :=
            if is_restore
            then PyStr.lower (or_default (spec_restore_mode spec) "out-of-place")
            else "";
          namespace := namespace |}.

Definition get_operation_id (op : t) (ocp_cluster_name : string) : string :=
  cluster op ++ "-" ++ namespace op ++ "-" ++ ocp_cluster_name.

Definition is_restore_in_place (op : t) : bool :=
  String.eqb (action op) "restore" && String.eqb (restore_mode op) "in-place".

End Operation.

(** ** Collaborator calls, environment and the flow monad *)

(** One constructor per collaborator method the core invokes. *)
Inductive event :=
(* K8sBackupApi *)
| EListOperations (ns : string)
| EPatchStatus (ns name : string) (fields : gmap string value)
| EDeleteCr (ns name : string)
(* existence-ensuring helpers *)
| EEnsureServiceAccount (ns : string)
| EEnsureCommvaultScc (ns : string)
| EEnsureCommcellSecret (ns : string)
(* volumes, snapshots, workloads *)
| EGetPvcName (strategy : string) (ns : string) (cluster : string)
| EReadPvc (ns name : string)
| EResolveSnapshotClass (ns pvc : string)
| ECreateSnapshot (ns snap_name pvc : string) (snapshot_class : string)
| ECreatePvc (ns name : string) (snap_name : option string) (attach_owner : bool)
| EWaitPvcAbsent (ns name : string)
| EDeleteAllStsPvcs (ns sts : string)
| EDeterminePostgresParams (ns : string) (cluster : string)
| EDeterminePostgresImage (ns : string) (cluster : string)
| ECreateStatefulSet (ns name image : string) (pvc_map : gmap string string)
| EReadSts (ns name : string)
| EReadPod (ns pod : string)
| EScaleStatefulSet (ns name : string) (replicas : Z)
| EWaitStsPodsGone (ns sts : string)
| EWaitPodReady (ns pod : string)
| EPatronictlRemove (ns : string) (cluster : string) (pod : string)
(* ZalandoApi *)
| EGetOriginalReplicas (ns : string) (cluster : string)
| EScaleZalandoCluster (ns : string) (cluster : string) (replicas : Z)
(* vendor SDK *)
| ESdkLookup (client : string)
| ECreateBackupTask (client : string)
| ECreateRestoreTask (client : string) (start_time : string)
| EGetJobStatus (job_id : string)
(* clock, logging *)
| ENow
| ESleep (seconds : Z).

(** What a collaborator hands back. *)
Inductive payload :=
| PUnit
| PStr (s : string)
| PInt (n : Z)
| POptInt (n : option Z)
| POptStr (s : option string)
| PStrs (l : list string)
| PPvc (storage_class_name storage_request : string)
| PSnapClass (name : option string) (reason message : string).

Definition as_str (p : payload) : string :=
  match p with PStr s => s | _ => "" end.
Definition as_int (p : payload) : Z :=
  match p with PInt n => n | _ => 0 end.
Definition as_optint (p : payload) : option Z :=
  match p with POptInt n => n | PInt n => Some n | _ => None end.
Definition as_optstr (p : payload) : option string :=
  match p with POptStr s => s | PStr s => Some s | _ => None end.
Definition as_strs (p : payload) : list string :=
  match p with PStrs l => l | _ => [] end.

(** The environment of one handler invocation.  Answers may depend on
    the calls made so far; [now] is the clock, as a formatted UTC time.  [api_fault h k] injects an API error into the
    [k]-th request that a [K8sBackupApi] method issues at history [h].
    [stop_at] is the point of the execution (counted in calls made) at
    which the framework raises the daemon's stop flag. *)
Record Env := {
  answer : list event -> event -> result payload;
  now : list event -> string;
  api_fault : list event -> nat -> option Z;
  stop_at : option nat;
  ocp_cluster : string;
  clone_id : string
}.

(** The state a handler runs against: the custom resources held by the
    API server, the collaborator calls made so far, and the log lines
    written when a failure is swallowed. *)
Record World := {
  store : list CR;
  trace : list event;
  logs : list (string * string)
}.

Definition M (A : Type) : Type := Env -> World -> result A * World.

Definition ret {A} (a : A) : M A := fun _ w => (Ok a, w).
Definition raise {A} (e : exn) : M A := fun _ w => (Raise e, w).
Definition bind {A B} (m : M A) (k : A -> M B) : M B :=
  fun env w =>
    match m env w with
    | (Ok a, w') => k a env w'
    | (Raise e, w') => (Raise e, w')
    end.
(** [try: m except Exception as e: h e] *)
Definition try_except {A} (m : M A) (h : exn -> M A) : M A :=
  fun env w =>
    match m env w with
    | (Ok a, w') => (Ok a, w')
    | (Raise e, w') => h e env w'
    end.

Notation "'let!' x ':=' m 'in' k" := (bind m (fun x => k))
  (at level 10, x name, m at level 100, k at level 200).
Notation "m ;;; k" := (bind m (fun _ => k))
  (at level 100, k at level 200, right associativity).

Definition push (ev : event) (w : World) : World :=
  {| store := store w; trace := trace w ++ [ev]; logs := logs w |}.

Definition push_log (level msg : string) (w : World) : World :=
  {| store := store w; trace := trace w; logs := logs w ++ [(level, msg)] |}.

Definition set_store (st : list CR) (w : World) : World :=
  {| store := st; trace := trace w; logs := logs w |}.

(** Record the call and fetch the collaborator's answer. *)
Definition call (ev : event) : M payload :=
  fun env w => (answer env (trace w) ev, push ev w).

Definition call_ (ev : event) : M unit := call ev ;;; ret tt.

Definition log (level msg : string) : M unit :=
  fun _ w => (Ok tt, push_log level msg w).

Definition ask_ocp_cluster : M string := fun env w => (Ok (ocp_cluster env), w).
Definition ask_clone_id : M string := fun env w => (Ok (clone_id env), w).

(** The daemon's [stopped] flag, read at the current point. *)
Definition stopped : M bool :=
  fun env w =>
    (Ok match stop_at env with
        | Some t => Nat.leb t (length (trace w))
        | None => false
        end, w).

(** [time.sleep(seconds)] *)
Definition sleep (seconds : Z) : M unit :=
  fun _ w => (Ok tt, push (ESleep seconds) w).

(** [get_utc_timestamp()] *)
Definition get_utc_timestamp : M string :=
  fun env w => (Ok (now env (trace w)), push ENow w).

(** ** k8s_backup_api.py *)

Module K8sBackupApi.

(** *** The custom-objects client, served from [store]

    A request fails with the injected status code if there is one, with
    404 if the resource is absent, and otherwise acts on the store.  A
    status patch is a JSON merge patch: the fields of the body replace
    those of the stored status, all others stay.  A delete marks the
    resource as terminating (a finalizer keeps it listed). *)

Definition same_key (ns name : string) (cr : CR) : bool :=
  String.eqb (cr_namespace cr) ns && String.eqb (cr_name cr) name.

Definition with_status (f : gmap string value -> gmap string value) (cr : CR) : CR :=
  {| cr_namespace := cr_namespace cr; cr_name := cr_name cr;
     cr_deletionTimestamp := cr_deletionTimestamp cr;
     cr_spec := cr_spec cr; cr_status := f (cr_status cr) |}.

(** [it.get("metadata", {}).get("deletionTimestamp")] as a condition. *)
Definition deleting (cr : CR) : bool :=
  match cr_deletionTimestamp cr with
  | Some t => PyStr.truthy t
  | None => false
  end.

Definition deletion_mark : string := "terminating".

Definition terminating (cr : CR) : CR :=
  {| cr_namespace := cr_namespace cr; cr_name := cr_name cr;
     cr_deletionTimestamp :=
       if deleting cr then cr_deletionTimestamp cr else Some deletion_mark;
     cr_spec := cr_spec cr; cr_status := cr_status cr |}.

Definition update_cr (ns name : string) (f : CR -> CR) (st : list CR) : list CR :=
  List.map (fun cr => if same_key ns name cr then f cr else cr) st.

Definition get_namespaced_custom_object
    (fault : option Z) (st : list CR) (ns name : string) : result CR :=
  match fault with
  | Some c => Raise (ApiException c "injected")
  | None =>
      match List.find (same_key ns name) st with
      | Some cr => Ok cr
      | None => Raise (ApiException 404 "Not Found")
      end
  end.

Definition patch_namespaced_custom_object_status
    (fault : option Z) (st : list CR) (ns name : string)
    (body_status : gmap string value) : result unit * list CR :=
  match fault with
  | Some c => (Raise (ApiException c "injected"), st)
  | None =>
      if List.existsb (same_key ns name) st
      then (Ok tt, update_cr ns name (with_status (fun old => body_status ∪ old)) st)
      else (Raise (ApiException 404 "Not Found"), st)
  end.

Definition list_namespaced_custom_object
    (fault : option Z) (st : list CR) (ns : string) : result (list CR) :=
  match fault with
  | Some c => Raise (ApiException c "injected")
  | None => Ok (List.filter (fun cr => String.eqb (cr_namespace cr) ns) st)
  end.

Definition delete_namespaced_custom_object
    (fault : option Z) (st : list CR) (ns name : string) : result unit * list CR :=
  match fault with
  | Some c => (Raise (ApiException c "injected"), st)
  | None =>
      if List.existsb (same_key ns name) st
      then (Ok tt, update_cr ns name terminating st)
      else (Raise (ApiException 404 "Not Found"), st)
  end.

(** *** [patch_status(namespace, name, **fields)] *)
Definition patch_status (ns name : string) (fields : gmap string value) : M unit :=
  fun env w =>
    let w1 := push (EPatchStatus ns name fields) w in
    let h := trace w1 in
    let send (current : gmap string value) (w2 : World) :=
      (* merged = current.copy(); merged.update(fields) *)
      let merged := fields ∪ current in
      match patch_namespaced_custom_object_status
              (api_fault env h 1) (store w2) ns name merged with
      | (Ok _, st') => (Ok tt, set_store st' w2)
      | (Raise (ApiException c _), st') =>
          if c =? 404 then (Ok tt, set_store st' w2)
          else (Ok tt, push_log "info" ("Status PATCH failed for " ++ name)
                         (set_store st' w2))
      | (Raise _, st') =>
          (Ok tt, push_log "info" ("Unexpected error in patch_status for " ++ name)
                    (set_store st' w2))
      end in
    match get_namespaced_custom_object (api_fault env h 0) (store w1) ns name with
    | Ok obj => send (cr_status obj) w1
    | Raise (ApiException c _) =>
        if c =? 404 then (Ok tt, w1)
        else send ∅ (push_log "info" ("Status GET failed for " ++ name) w1)
    | Raise _ =>
        (Ok tt, push_log "info" ("Unexpected error in patch_status for " ++ name) w1)
    end.

(** [st.get("phase", "") in ("Succeeded", "Failed", "Rejected")] *)
Definition phase_is_finished (st : gmap string value) : bool :=
  match st !! "phase" with
  | Some (VStr p) => PyStr.in_tuple p ["Succeeded"; "Failed"; "Rejected"]
  | _ => false
  end.

(** The [for it in items] loop of [another_operation_in_progress]. *)
Fixpoint scan_items (cluster_name : string) (current_name : string)
         (items : list CR) : bool * option string :=
  match items with
  | [] => (false, None)
  | it :: rest =>
      if String.eqb (cr_name it) current_name then
        scan_items cluster_name current_name rest
      else if deleting it then
        scan_items cluster_name current_name rest
      else if negb (String.eqb (spec_cluster (cr_spec it)) cluster_name) then
        scan_items cluster_name current_name rest
      else if phase_is_finished (cr_status it) then
        scan_items cluster_name current_name rest
      else (true, Some (cr_name it))
  end.

Definition another_operation_in_progress
    (ns : string) (cluster_name : string) (current_name : string)
  : M (bool * option string) :=
  fun env w =>
    let w1 := push (EListOperations ns) w in
    match list_namespaced_custom_object (api_fault env (trace w1) 0) (store w1) ns with
    | Raise (ApiException _ _) =>
        (Ok (false, None), push_log "info" "Cannot list CRs" w1)
    | Raise e => (Raise e, w1)
    | Ok items => (Ok (scan_items cluster_name current_name items), w1)
    end.

(** [delete_cr(namespace, name)] *)
Definition delete_cr (ns name : string) : M unit :=
  fun env w =>
    let w1 := push (EDeleteCr ns name) w in
    match delete_namespaced_custom_object
            (api_fault env (trace w1) 0) (store w1) ns name with
    | (Ok _, st') => (Ok tt, push_log "info" ("CR " ++ name ++ " deleted") (set_store st' w1))
    | (Raise (ApiException c _), st') =>
        if c =? 404
        then (Ok tt, push_log "info" ("CR " ++ name ++ " already deleted") (set_store st' w1))
        else (Ok tt, push_log "info" ("Failed to delete CR " ++ name) (set_store st' w1))
    | (Raise _, st') =>
        (Ok tt, push_log "info" ("Unexpected error while deleting CR " ++ name)
                  (set_store st' w1))
    end.

End K8sBackupApi.

(** ** Python [int()] *)

Module PyInt.

Definition is_digit (c : ascii) : bool :=
  let n := nat_of_ascii c in (Nat.leb 48 n) && (Nat.leb n 57).

Definition digit_val (c : ascii) : Z := Z.of_nat (nat_of_ascii c - 48).

(** Decimal digits, single underscores allowed between two digits. *)
Fixpoint digits (l : list ascii) (acc : Z) (after_digit : bool) : option Z :=
  match l with
  | [] => if after_digit then Some acc else None
  | c :: r =>
      if is_digit c then digits r (10 * acc + digit_val c) true
      else if Ascii.eqb c "_"%char && after_digit then
        match r with
        | d :: _ => if is_digit d then digits r acc false else None
        | [] => None
        end
      else None
  end.

(** [int(s)] on a string: surrounding white space, an optional sign,
    decimal digits. *)
Definition of_string (s : string) : option Z :=
  match list_ascii_of_string (PyStr.strip s) with
  | c :: r =>
      if Ascii.eqb c "-"%char then option_map Z.opp (digits r 0 false)
      else if Ascii.eqb c "+"%char then digits r 0 false
      else digits (c :: r) 0 false
  | [] => None
  end.

(** [int(v)] on a status value. *)
Definition of_value (v : value) : result Z :=
  match v with
  | VInt n => Ok n
  | VBool b => Ok (if b then 1 else 0)
  | VStr s =>
      match of_string s with
      | Some n => Ok n
      | None => Raise (ValueError ("invalid literal for int() with base 10: " ++ s))
      end
  | VComposite _ => Raise (TypeError "int() argument must be a string or a number")
  end.

End PyInt.

(** Run [m] and hand its outcome over as a value. *)
Definition attempt {A} (m : M A) : M (result A) :=
  fun env w => match m env w with (r, w') => (Ok r, w') end.

(** ** commvault_api.py: the client *)

Module CommvaultApi.

(** [get_job_status_by_id]: the vendor's answer wrapped in a status
    object; a failure of the query degrades to the unknown status. *)
Definition status_of_answer (a : result payload) : JobStatus :=
  match a with
  | Ok p => CommvaultJobStatus.init (as_optstr p)
  | Raise _ => CommvaultJobStatus.init None
  end.

Definition get_job_status_by_id (job_id : string) : M JobStatus :=
  let! a := attempt (call (EGetJobStatus job_id)) in
  match a with
  | Ok _ => ret (status_of_answer a)
  | Raise e =>
      log "error" ("Error getting job status for job " ++ job_id ++ ": " ++ exn_str e) ;;;
      ret (status_of_answer a)
  end.

(** Range of [datetime.fromtimestamp(t, timezone.utc)]: years 1 to
    9999. *)
Definition timestamp_in_range (t : Z) : bool :=
  (-62135596800 <=? t) && (t <=? 253402300799).

(** The [except] ladder shared by both task creations: the client's
    own exception passes, an SDK exception and any other one are logged
    and wrapped. *)
Definition wrap_failure (what client : string) (e : exn) : M payload :=
  if is_commvault_exception e then raise e
  else
    let msg := ((if is_sdk_exception e then "cvpysdk error" else "Unexpected error")
                ++ " while creating " ++ what ++ " task for '"
                ++ client ++ "': " ++ exn_str e)%string in
    log "error" msg ;;; raise (CommvaultApiException msg).

(** [if job: return job.job_id else: raise ...] *)
Definition job_id_of (what client : string) (job : payload) : M string :=
  match as_optstr job with
  | Some job_id => ret job_id
  | None =>
      raise (CommvaultApiException
               ("Failed to start " ++ what ++ " job for client '" ++ client
                ++ "': response was empty"))
  end.

(** [create_backup_task(client_name)] *)
Definition create_backup_task (client : string) : M string :=
  let! job :=
    try_except
      (let! found := call (ESdkLookup client) in
       match as_optstr found with
       | None =>
           raise (CommvaultApiException
                    ("Could not retrieve subclient for client '" ++ client ++ "'"))
       | Some _ => call (ECreateBackupTask client)
       end)
      (wrap_failure "backup" client) in
  job_id_of "backup" client job.

(** [create_restore_task(client_name, start_time)] *)
Definition create_restore_task (client start_time : string) : M string :=
  let! job :=
    try_except
      (let! found := call (ESdkLookup client) in
       match as_optstr found with
       | None =>
           raise (CommvaultApiException
                    ("Could not retrieve instance for client '" ++ client ++ "'"))
       | Some _ =>
           (if PyStr.truthy start_time then
              match PyInt.of_value (VStr start_time) with
              | Ok t =>
                  if timestamp_in_range t then ret tt
                  else raise (ValueError "year is out of range")
              | Raise e => raise e
              end
            else ret tt) ;;;
           call (ECreateRestoreTask client start_time)
       end)
      (wrap_failure "restore" client) in
  job_id_of "restore" client job.

End CommvaultApi.

(** ** operation_strategy.py and its two system variants *)

(** The four concrete classes; each inherits [execute] from its system
    axis and [_create_target_pvc] / [start_commvault_task] from its action
    axis. *)
Inductive strategy := ZalandoBackup | ZalandoRestore | CNPGBackup | CNPGRestore.

Definition is_restore_strategy (s : strategy) : bool :=
  match s with ZalandoRestore | CNPGRestore => true | _ => false end.

Definition is_zalando_strategy (s : strategy) : bool :=
  match s with ZalandoBackup | ZalandoRestore => true | _ => false end.

Definition strategy_name (s : strategy) : string :=
  match s with
  | ZalandoBackup => "ZalandoBackup" | ZalandoRestore => "ZalandoRestore"
  | CNPGBackup => "CNPGBackup" | CNPGRestore => "CNPGRestore"
  end.

Definition get_strategy (op : Operation.t) : result strategy :=
  if String.eqb (Operation.operator op) "zalando" then
    if String.eqb (Operation.action op) "restore" then Ok ZalandoRestore
    else Ok ZalandoBackup
  else if String.eqb (Operation.operator op) "cnpg" then
    if String.eqb (Operation.action op) "restore" then Ok CNPGRestore
    else Ok CNPGBackup
  else Raise (ValueError ("Unknown operator/action: " ++ Operation.operator op
                          ++ "/" ++ Operation.action op)).

(** [except ApiException as e: raise kopf.TemporaryError(f"{what}: {e}")] *)
Definition api_error_is_temporary {A} (what : string) (e : exn) : M A :=
  match api_status e with
  | Some _ => raise (TemporaryError (what ++ ": " ++ exn_str e))
  | None => raise e
  end.

(** The creation idiom of the backup path: 409 is logged and accepted,
    any other API error becomes a retryable failure. *)
Definition accept_already_exists (exists_msg what : string) (e : exn) : M unit :=
  match api_status e with
  | Some c =>
      if c =? 409 then log "info" exists_msg
      else raise (TemporaryError (what ++ ": " ++ exn_str e))
  | None => raise e
  end.

(** [BackupOperator.resolve_snapshot_class_for_pvc] *)
Definition resolve_snapshot_class_for_pvc (ns cr_name pvc : string) : M string :=
  let! p := call (EResolveSnapshotClass ns pvc) in
  let '(cls, reason, message) :=
    match p with
    | PSnapClass n r m => (n, r, m)
    | _ => (as_optstr p, EmptyString, EmptyString)
    end in
  match cls with
  | Some c =>
      if PyStr.truthy c then ret c
      else
        log "error" message ;;;
        K8sBackupApi.patch_status ns cr_name
          {[ "phase" := VStr "Failed"; "reason" := VStr reason;
             "message" := VStr message ]} ;;;
        raise (PermanentError message)
  | None =>
      log "error" message ;;;
      K8sBackupApi.patch_status ns cr_name
        {[ "phase" := VStr "Failed"; "reason" := VStr reason;
           "message" := VStr message ]} ;;;
      raise (PermanentError message)
  end.

(** [OperationStrategy._create_helper_statefulset] *)
Definition _create_helper_statefulset
    (op : Operation.t) (sts_name image : string) (pvc_map : gmap string string) : M unit :=
  try_except
    (call_ (ECreateStatefulSet (Operation.namespace op) sts_name image pvc_map))
    (fun e =>
       match api_status e with
       | Some c =>
           if c =? 409 then log "info" ("StatefulSet already exists: " ++ exn_str e)
           else
             log "info" ("Create StatefulSet " ++ sts_name ++ " failed in "
                         ++ Operation.namespace op) ;;;
             raise e
       | None => raise e
       end).

(** [BackupOperationStrategy._create_target_pvc] *)
Definition backup_create_target_pvc (op : Operation.t) (pvc_name : string) : M string :=
  let ns := Operation.namespace op in
  try_except (call_ (EReadPvc ns pvc_name))
    (api_error_is_temporary ("Cannot find PVC " ++ pvc_name)) ;;;
  let! snapshot_class_name :=
    resolve_snapshot_class_for_pvc ns (Operation.name op) pvc_name in
  let! cid := ask_clone_id in
  let clone_pvc_name := (pvc_name ++ "-clone-" ++ cid)%string in
  let snapshot_name := (clone_pvc_name ++ "-snap")%string in
  try_except (call_ (ECreateSnapshot ns snapshot_name pvc_name snapshot_class_name))
    (accept_already_exists ("Snapshot " ++ snapshot_name ++ " already exists")
                           "Error creating snapshot") ;;;
  try_except (call_ (ECreatePvc ns clone_pvc_name (Some snapshot_name) true))
    (accept_already_exists ("PVC " ++ clone_pvc_name ++ " already exists")
                           "Error creating PVC") ;;;
  ret clone_pvc_name.

(** [RestoreOperationStrategy._create_target_pvc] *)
Definition restore_create_target_pvc (op : Operation.t) (pvc_name : string) : M string :=
  let ns := Operation.namespace op in
  let! cid := ask_clone_id in
  let target_pvc_name :=
    if Operation.is_restore_in_place op then pvc_name
    else (pvc_name ++ "-restore-" ++ cid)%string in
  log "info" ("[create_target_pvc] Restore operation: waiting for PVC "
              ++ target_pvc_name
              ++ " to be fully removed before creating a new one.") ;;;
  call_ (EWaitPvcAbsent ns target_pvc_name) ;;;
  try_except (call_ (ECreatePvc ns target_pvc_name None false))
    (fun e =>
       match api_status e with
       | Some c =>
           if c =? 409 then
             log "info" ("PVC " ++ target_pvc_name
                         ++ " already exists while creating PVC for restore "
                         ++ "(it is probably still being deleted).") ;;;
             raise (TemporaryError ("PVC " ++ target_pvc_name
                         ++ " already exists. It might still be terminating."))
           else raise (TemporaryError ("Error creating PVC: " ++ exn_str e))
       | None => raise e
       end) ;;;
  ret target_pvc_name.

Definition _create_target_pvc (s : strategy) (op : Operation.t) (pvc_name : string)
  : M string :=
  if is_restore_strategy s then restore_create_target_pvc op pvc_name
  else backup_create_target_pvc op pvc_name.

Definition start_commvault_task (s : strategy) (op : Operation.t) : M string :=
  let! ocp := ask_ocp_cluster in
  if is_restore_strategy s then
    CommvaultApi.create_restore_task (Operation.get_operation_id op ocp)
                                     (Operation.restore_date op)
  else CommvaultApi.create_backup_task (Operation.get_operation_id op ocp).

(** *** zalando_operation_strategy.py *)

(** [originalReplicas=int(original_replicas)] *)
Definition original_replicas_fields (n : Z) : gmap string value :=
  {[ "originalReplicas" := VInt n ]}.

Module ZalandoOperationStrategy.

(** [get_pvc_name()]: the master pod's claim for a backup, the claim of
    pod 0 for a restore; both are lookups in the cluster. *)
Definition get_pvc_name (s : strategy) (op : Operation.t) : M string :=
  let! p := call (EGetPvcName (strategy_name s) (Operation.namespace op)
                              (Operation.cluster op)) in
  ret (as_str p).

Definition scale_zalando_cluster_to_zero_replicas (op : Operation.t) : M unit :=
  let ns := Operation.namespace op in
  let! p := call (EGetOriginalReplicas ns (Operation.cluster op)) in
  let original_replicas := as_int p in
  K8sBackupApi.patch_status ns (Operation.name op)
    (original_replicas_fields original_replicas) ;;;
  try_except
    (call_ (EScaleZalandoCluster ns (Operation.cluster op) 0) ;;;
     call_ (EWaitStsPodsGone ns (Operation.cluster op)))
    (fun e => log "info" ("[restore in-place] scale/wait note: " ++ exn_str e)).

Definition ensure_cluster_quiesced (op : Operation.t) : M unit :=
  let ns := Operation.namespace op in
  let cluster := Operation.cluster op in
  let! r := attempt (call (EReadSts ns cluster)) in
  match r with
  | Raise e =>
      match api_status e with
      | Some c =>
          if c =? 404 then
            log "info" ("[ensure_cluster_quiesced] StatefulSet " ++ cluster
                        ++ " not found in " ++ ns
                        ++ ", assuming it was already removed.")
          else
            raise (TemporaryError ("Failed to read StatefulSet " ++ cluster
                                   ++ " before Commvault restore: " ++ exn_str e))
      | None => raise e
      end
  | Ok p =>
      (* replicas = sts.spec.replicas or 0 *)
      let replicas := match as_optint p with Some n => n | None => 0 end in
      if negb (replicas =? 0) then
        raise (TemporaryError ("[ensure_cluster_quiesced] Cluster " ++ cluster
                               ++ " has replicas, expected 0 before starting"
                               ++ " Commvault restore."))
      else call_ (EWaitStsPodsGone ns cluster)
  end.

Definition execute (s : strategy) (op : Operation.t) : M unit :=
  let ns := Operation.namespace op in
  let! ocp := ask_ocp_cluster in
  let sts_name := Operation.get_operation_id op ocp in
  let! pvc_name := get_pvc_name s op in
  try_except (call_ (EReadPvc ns pvc_name))
    (api_error_is_temporary ("Cannot find PVC " ++ pvc_name)) ;;;
  (if Operation.is_restore_in_place op then
     scale_zalando_cluster_to_zero_replicas op ;;;
     call_ (EDeleteAllStsPvcs ns (Operation.cluster op))
   else ret tt) ;;;
  let! target := _create_target_pvc s op pvc_name in
  let pvc_map : gmap string string := {[ "pgdata" := target ]} in
  let! img := call (EDeterminePostgresParams ns (Operation.cluster op)) in
  _create_helper_statefulset op sts_name (as_str img) pvc_map ;;;
  if Operation.is_restore_in_place op then ensure_cluster_quiesced op
  else ret tt.

End ZalandoOperationStrategy.

(** *** cnpg_operation_strategy.py *)

Module CNPGOperationStrategy.

(** The [for pvc_name in pvc_names] loop of [_create_target_pvcs]. *)
Fixpoint clone_each (s : strategy) (op : Operation.t) (pvc_names : list string)
         (clone_pvcs : gmap string string) : M (gmap string string) :=
  match pvc_names with
  | [] => ret clone_pvcs
  | pvc_name :: rest =>
      try_except (call_ (EReadPvc (Operation.namespace op) pvc_name))
        (api_error_is_temporary ("Cannot find PVC " ++ pvc_name)) ;;;
      let! clone_name := _create_target_pvc s op pvc_name in
      clone_each s op rest
        (if PyStr.contains pvc_name "wal"
         then <[ "pg-wal" := clone_name ]> clone_pvcs
         else <[ "pgdata" := clone_name ]> clone_pvcs)
  end.

Definition _create_target_pvcs (s : strategy) (op : Operation.t)
  : M (gmap string string) :=
  let pod_name := (Operation.cluster op ++ "-1")%string in
  let! p :=
    try_except (call (EReadPod (Operation.namespace op) pod_name))
      (api_error_is_temporary ("Cannot access pod " ++ pod_name)) in
  clone_each s op (as_strs p) ∅.

Definition execute (s : strategy) (op : Operation.t) : M unit :=
  let! ocp := ask_ocp_cluster in
  let sts_name := Operation.get_operation_id op ocp in
  let! img := call (EDeterminePostgresImage (Operation.namespace op)
                                            (Operation.cluster op)) in
  let! clone_pvcs := _create_target_pvcs s op in
  _create_helper_statefulset op sts_name (as_str img) clone_pvcs.

End CNPGOperationStrategy.

Definition execute (s : strategy) (op : Operation.t) : M unit :=
  if is_zalando_strategy s then ZalandoOperationStrategy.execute s op
  else CNPGOperationStrategy.execute s op.

(** ** backup_operator.py: the operator *)

Definition lift {A} (r : result A) : M A :=
  match r with Ok a => ret a | Raise e => raise e end.

(** [status.is_success] on whatever the variable holds: only the status
    object has the attribute. *)
Definition py_is_success (status : pystatus) : result bool :=
  match status with
  | PyJob j => Ok (CommvaultJobStatus.is_success j)
  | PyString _ => Raise (AttributeError "'str' object has no attribute 'is_success'")
  | PyNone => Raise (AttributeError "'NoneType' object has no attribute 'is_success'")
  end.

Module BackupOperator.

(** [run_patronictl_remove]: an API error of the exec is logged. *)
Definition run_patronictl_remove (ns cluster pod : string) : M unit :=
  try_except (call_ (EPatronictlRemove ns cluster pod))
    (fun e =>
       match api_status e with
       | Some _ =>
           log "info" ("[patronictl] ApiException while executing patronictl on " ++ pod)
       | None => raise e
       end).

(** The replica count to return to:
    [st_final.get("originalReplicas") or 1], then [int(...)] with
    [TypeError] / [ValueError] giving 1, then the floor of 1. *)
Definition desired_replicas (st_final : gmap string value) : Z :=
  let desired_replicas_raw :=
    match st_final !! "originalReplicas" with
    | Some v => if value_truthy v then v else VInt 1
    | None => VInt 1
    end in
  let n := match PyInt.of_value desired_replicas_raw with
           | Ok n => n
           | Raise _ => 1
           end in
  if n <? 1 then 1 else n.

Definition finalize (op : Operation.t) (body : CR) (status : pystatus) : M unit :=
  try_except
    (let st_final := cr_status body in
     let ns := Operation.namespace op in
     let cluster := Operation.cluster op in
     let! success := lift (py_is_success status) in
     if success && String.eqb (Operation.operator op) "zalando"
        && Operation.is_restore_in_place op
     then
       let n := desired_replicas st_final in
       let! ocp := ask_ocp_cluster in
       let helper_sts_name := Operation.get_operation_id op ocp in
       (* STEP 0: stop the helper workload *)
       try_except
         (call_ (EScaleStatefulSet ns helper_sts_name 0) ;;;
          call_ (EWaitStsPodsGone ns helper_sts_name))
         (fun e => log "info" ("[daemon] " ++ Operation.name op
                               ++ ": ignoring error while stopping helper STS "
                               ++ helper_sts_name ++ ": " ++ exn_str e)) ;;;
       let pod0 := (cluster ++ "-0")%string in
       (* STEP 1..4 *)
       call_ (EScaleZalandoCluster ns cluster 1) ;;;
       call_ (EWaitPodReady ns pod0) ;;;
       run_patronictl_remove ns cluster pod0 ;;;
       if 1 <? n then call_ (EScaleZalandoCluster ns cluster n) else ret tt
     else ret tt)
    (fun e => log "info" ("[daemon] " ++ Operation.name op
                          ++ ": autoscale/patronictl step ignored error: "
                          ++ exn_str e)).

Definition conflict_message (op : Operation.t) (other : option string) : string :=
  "Another operation for cluster " ++ Operation.cluster op
  ++ " is already in progress (CR: "
  ++ match other with Some o => o | None => "None" end
  ++ "). Current CR " ++ Operation.name op ++ " will be removed.".

(** The keyword arguments of the status patches of [run]. *)
Definition rejected_fields (msg : string) : gmap string value :=
  {[ "phase" := VStr "Rejected"; "reason" := VStr "ConcurrentOperation";
     "message" := VStr msg ]}.

Definition failed_fields (reason message finished_at : string) : gmap string value :=
  {[ "phase" := VStr "Failed"; "reason" := VStr reason;
     "message" := VStr message; "finishedAt" := VStr finished_at ]}.

Definition started_fields (op : Operation.t) (initial_status : JobStatus)
           (started_at job_id : string) : gmap string value :=
  {[ "phase" := VStr (map_phase_from_status (PyJob initial_status));
     "commvaultStatus" := VStr (CommvaultJobStatus.str initial_status);
     "action" := VStr (Operation.action op);
     "operator" := VStr (Operation.operator op);
     "restore_mode" := VStr (Operation.restore_mode op);
     "startedAt" := VStr started_at;
     "jobId" := VStr job_id ]}.

Definition run (op : Operation.t) : M unit :=
  let ns := Operation.namespace op in
  let name := Operation.name op in
  (* Concurrency guard per cluster *)
  let! g := K8sBackupApi.another_operation_in_progress ns (Operation.cluster op) name in
  if fst g then
    let msg := conflict_message op (snd g) in
    K8sBackupApi.patch_status ns name (rejected_fields msg) ;;;
    K8sBackupApi.delete_cr ns name
  else
    call_ (EEnsureServiceAccount ns) ;;;
    call_ (EEnsureCommvaultScc ns) ;;;
    call_ (EEnsureCommcellSecret ns) ;;;
    let! s := lift (get_strategy op) in
    let! provisioned := attempt (execute s op) in
    match provisioned with
    | Raise e =>
        log "error" ("Failed to execute strategy for " ++ name ++ ": " ++ exn_str e) ;;;
        let! ts := get_utc_timestamp in
        K8sBackupApi.patch_status ns name
          (failed_fields "StrategyExecutionError"
                         ("Strategy execution failure: " ++ exn_str e) ts)
    | Ok _ =>
        let! started := attempt (start_commvault_task s op) in
        match started with
        | Raise e =>
            log "error" ("Failed to start Commvault task for " ++ name ++ ": "
                         ++ exn_str e) ;;;
            let! ts := get_utc_timestamp in
            K8sBackupApi.patch_status ns name
              (failed_fields "CommvaultNoJob" ("CreateTask failure: " ++ exn_str e) ts)
        | Ok job_id =>
            let! initial_status := CommvaultApi.get_job_status_by_id job_id in
            let! ts := get_utc_timestamp in
            K8sBackupApi.patch_status ns name
              (started_fields op initial_status ts job_id)
        end
    end.

End BackupOperator.

(** ** main.py: the polling daemon *)

Module Daemon.

Definition timeout_seconds : Z := 3600.
Definition poll_seconds : Z := 15.

(** How the [while] loop was left. *)
Inductive loop_exit :=
| LoopStopped
| LoopEnded (status : pystatus).

(** One [get_job_status_by_id] of the loop: the call is recorded, the
    vendor's raw answer for this poll is wrapped. *)
Definition poll (job_id : string) (raw : option string) : M JobStatus :=
  fun _ w => (Ok (CommvaultJobStatus.init raw), push (EGetJobStatus job_id) w).

Definition change_fields (status : JobStatus) : gmap string value :=
  {[ "commvaultStatus" := VStr (CommvaultJobStatus.str status);
     "phase" := VStr (map_phase_from_status (PyJob status)) ]}.

(** The polling loop.  [polls] lists the raw vendor answers of the
    iterations that start within the time budget; when it is used up
    the loop guard has turned false. *)
Fixpoint poll_loop (op : Operation.t) (job_id : string)
         (polls : list (option string)) (last_status status : pystatus)
  : M loop_exit :=
  match polls with
  | [] => ret (LoopEnded status)
  | raw :: rest =>
      let! stop := stopped in
      if stop then
        log "info" ("[daemon] " ++ Operation.name op
                    ++ ": stop requested, exiting daemon.") ;;;
        ret LoopStopped
      else
        let! status := poll job_id raw in
        let! last_status :=
          (if job_ne status last_status then
             K8sBackupApi.patch_status (Operation.namespace op) (Operation.name op)
               (change_fields status) ;;;
             ret (PyJob status)
           else ret last_status) in
        if CommvaultJobStatus.is_terminal status then ret (LoopEnded (PyJob status))
        else
          sleep poll_seconds ;;;
          poll_loop op job_id rest last_status (PyJob status)
  end.

Definition status_field_str (st : gmap string value) (k : string) : pystatus :=
  match st !! k with
  | Some (VStr s) => PyString s
  | _ => PyNone
  end.

(** [st.get("jobId")] *)
Definition job_id_of_status (st : gmap string value) : string :=
  match st !! "jobId" with Some (VStr j) => j | _ => EmptyString end.

Definition final_fields (phase : string) (status : pystatus) (finished_at : string)
  : gmap string value :=
  {[ "phase" := VStr phase;
     "commvaultStatus" := VStr (pystatus_str status);
     "finishedAt" := VStr finished_at ]}.

(** The statements that follow the loop: final values, finalization,
    final status update, deletion on success. *)
Definition conclude (op : Operation.t) (body : CR) (status : pystatus) : M unit :=
  let! finished_at := get_utc_timestamp in
  let! success := lift (py_is_success status) in
  let phase := if success then "Succeeded" else "Failed" in
  BackupOperator.finalize op body status ;;;
  K8sBackupApi.patch_status (Operation.namespace op) (Operation.name op)
    (final_fields phase status finished_at) ;;;
  if success then K8sBackupApi.delete_cr (Operation.namespace op) (Operation.name op)
  else ret tt.

Definition wait_and_cleanup (polls : list (option string)) (body : CR) : M unit :=
  let! op := lift (Operation.init (cr_name body) (cr_namespace body) (cr_spec body)) in
  if K8sBackupApi.deleting body then ret tt
  else
    let st := cr_status body in
    let job_id := job_id_of_status st in
    let last_status := status_field_str st "commvaultStatus" in
    let! left := poll_loop op job_id polls last_status last_status in
    match left with
    | LoopStopped => ret tt
    | LoopEnded status => conclude op body status
    end.

End Daemon.

(** A handler invocation starts with no call made yet. *)
Definition start (st : list CR) : World :=
  {| store := st; trace := []; logs := [] |}.

(** * Vocabulary of the statements *)



(** The stored [.status] of a resource, and one field of it. *)
Definition status_of (w : World) (ns name : string) : option (gmap string value) :=
  option_map cr_status (List.find (K8sBackupApi.same_key ns name) (store w)).

Definition status_field (w : World) (ns name k : string) : option value :=
  match status_of w ns name with
  | Some st => st !! k
  | None => None
  end.

(** What one [patch_status] can do to the store: nothing (the resource
    is gone or a request failed), or a merge of [fields ∪ current] into
    the stored status, where [current] is the status read back or, after
    a failed read, the empty dict. *)
Inductive patch_effect (fields : gmap string value) (ns name : string)
          (st st' : list CR) : Prop :=
| PatchDropped : st' = st -> patch_effect fields ns name st st'
| PatchApplied (current : gmap string value) :
    is_Some (List.find (K8sBackupApi.same_key ns name) st) ->
    (current = ∅
     \/ List.find (K8sBackupApi.same_key ns name) st <> None
        /\ Some current = cr_status <$> List.find (K8sBackupApi.same_key ns name) st) ->
    st' = K8sBackupApi.update_cr ns name
            (K8sBackupApi.with_status (fun old => (fields ∪ current) ∪ old)) st ->
    patch_effect fields ns name st st'.

(** Every flow only appends to the trace. *)
Definition extends {A} (m : M A) : Prop :=
  forall env w, exists new, trace (snd (m env w)) = trace w ++ new.

(** A resource in a terminal phase. *)
Definition in_terminal_phase (cr : CR) : Prop :=
  exists p, cr_status cr !! "phase" = Some (VStr p)
            /\ In p ["Succeeded"; "Failed"; "Rejected"].

(** A resource the API server is deleting. *)
Definition being_deleted (cr : CR) : Prop :=
  exists t, cr_deletionTimestamp cr = Some t /\ t <> "".

(** Another live Operation on the same cluster in the same namespace. *)
Definition live_rival (ns cluster current : string) (cr : CR) : Prop :=
  cr_namespace cr = ns /\ cr_name cr <> current
  /\ spec_cluster (cr_spec cr) = cluster
  /\ ~ in_terminal_phase cr /\ ~ being_deleted cr.

(** The admission went on past the guard: its first provisioning step
    was taken. *)
Definition proceeds (ns : string) (tr : list event) : Prop :=
  In (EEnsureServiceAccount ns) tr.

(** The admission ended in the rejection of the admitting resource. *)
Definition rejected (ns name : string) (tr : list event) : Prop :=
  exists msg,
    tr = [EListOperations ns;
          EPatchStatus ns name (BackupOperator.rejected_fields msg);
          EDeleteCr ns name].

Definition has_key (ns name : string) (cr : CR) : Prop :=
  cr_namespace cr = ns /\ cr_name cr = name.

Definition no_faults (env : Env) : Prop := forall h i, api_fault env h i = None.

(** A store obtained by rewriting the resources of one key. *)
Definition rewrites_only (ns name : string) (st st' : list CR) : Prop :=
  exists g, st' = List.map g st
            /\ (forall cr, ~ has_key ns name cr -> g cr = cr)
            /\ (forall cr, has_key ns name cr -> has_key ns name (g cr)).

(** The calls of [new], made after history [h], that the environment
    answers with an exception. *)
Fixpoint failures (env : Env) (h new : list event) : nat :=
  match new with
  | [] => 0
  | ev :: rest =>
      (match answer env h ev with Raise _ => 1 | Ok _ => 0 end
       + failures env (h ++ [ev]) rest)%nat
  end.

(** The recovery steps of the finalization. *)
Definition recovery_steps (op : Operation.t) (ocp : string) (n : Z) : list event :=
  let ns := Operation.namespace op in
  let cluster := Operation.cluster op in
  let helper := Operation.get_operation_id op ocp in
  [EScaleStatefulSet ns helper 0; EWaitStsPodsGone ns helper;
   EScaleZalandoCluster ns cluster 1; EWaitPodReady ns (cluster ++ "-0");
   EPatronictlRemove ns cluster (cluster ++ "-0")]
  ++ (if 1 <? n then [EScaleZalandoCluster ns cluster n] else []).

Definition finalization_applies (op : Operation.t) (status : pystatus) : bool :=
  match status with
  | PyJob j => CommvaultJobStatus.is_success j
  | _ => false
  end
  && String.eqb (Operation.operator op) "zalando"
  && Operation.is_restore_in_place op.

Definition touches_operation (ev : event) : bool :=
  match ev with
  | EPatchStatus _ _ _ | EDeleteCr _ _ | EListOperations _ => true
  | _ => false
  end.





(** Calls matching [p] that are made once [t] calls have been made,
    [off] being the number of calls made before [new]. *)
Fixpoint late (p : event -> bool) (t off : nat) (new : list event) : nat :=
  match new with
  | [] => 0
  | ev :: rest =>
      ((if p ev && Nat.leb t off then 1 else 0) + late p t (S off) rest)%nat
  end.





(** ** Steps of an in-place restore *)

(** What reading the live workload's replica count gave. *)
Inductive replicas_read := ReadZero | ReadNonZero | WorkloadMissing | ReadFailed.

(** The steps of an in-place restore, with their outcome. *)
Inductive in_place_step :=
| ResolveSource (pvc : string)
| RecordReplicas
| Quiesce (ok : bool)
| AwaitPodsGone (ok : bool)
| DeleteVolumes (ok : bool)
| AwaitTargetAbsent (pvc : string) (ok : bool)
| RecreateEmpty (pvc : string) (ok : bool)
| StartHelper (ok : bool)
| ReadReplicas (r : replicas_read)
| RequestRestore.

Definition is_ok {A} (r : result A) : bool :=
  match r with Ok _ => true | Raise _ => false end.

Definition step_of (op : Operation.t) (c : event * result payload)
  : option in_place_step :=
  let ns := Operation.namespace op in
  let cluster := Operation.cluster op in
  match c with
  | (EGetPvcName _ _ _, Ok p) => Some (ResolveSource (as_str p))
  | (EPatchStatus _ _ fields, _) =>
      match fields !! "originalReplicas" with
      | Some _ => Some RecordReplicas
      | None => None
      end
  | (EScaleZalandoCluster _ cl n, a) =>
      if String.eqb cl cluster && (n =? 0) then Some (Quiesce (is_ok a)) else None
  | (EWaitStsPodsGone _ sts, a) =>
      if String.eqb sts cluster then Some (AwaitPodsGone (is_ok a)) else None
  | (EDeleteAllStsPvcs _ _, a) => Some (DeleteVolumes (is_ok a))
  | (EWaitPvcAbsent _ pvc, a) => Some (AwaitTargetAbsent pvc (is_ok a))
  | (ECreatePvc _ pvc None _, a) => Some (RecreateEmpty pvc (is_ok a))
  | (ECreateStatefulSet _ _ _ _, a) =>
      Some (StartHelper match a with
                        | Ok _ => true
                        | Raise e => match api_status e with
                                     | Some c => c =? 409
                                     | None => false
                                     end
                        end)
  | (EReadSts _ _, a) =>
      Some (ReadReplicas
              match a with
              | Ok p => match as_optint p with
                        | Some n => if n =? 0 then ReadZero else ReadNonZero
                        | None => ReadZero
                        end
              | Raise e => match api_status e with
                           | Some c => if c =? 404 then WorkloadMissing else ReadFailed
                           | None => ReadFailed
                           end
              end)
  | (ECreateRestoreTask _ _, _) => Some RequestRestore
  | _ => None
  end.

(** The steps among the calls [new] made after history [h], each call
    taken with the answer it got. *)
Fixpoint steps_from (env : Env) (op : Operation.t) (h new : list event)
  : list in_place_step :=
  match new with
  | [] => []
  | ev :: rest =>
      match step_of op (ev, answer env h ev) with
      | Some s => [s]
      | None => []
      end ++ steps_from env op (h ++ [ev]) rest
  end.

Definition steps (env : Env) (op : Operation.t) (tr : list event) : list in_place_step :=
  steps_from env op [] tr.

(** The ordering as worded: every step, each one succeeding, in one
    fixed order. *)
Definition documented_order (pvc : string) (scaled gone : bool) : list in_place_step :=
  [ResolveSource pvc; RecordReplicas; Quiesce scaled; AwaitPodsGone gone;
   DeleteVolumes true; AwaitTargetAbsent pvc true; RecreateEmpty pvc true;
   StartHelper true; ReadReplicas ReadZero; AwaitPodsGone true; RequestRestore].

Definition in_place_restore_follows_documented_order : Prop :=
  forall (env : Env) (st : list CR) (op : Operation.t),
    Operation.operator op = "zalando" ->
    Operation.is_restore_in_place op = true ->
    let tr := trace (snd (BackupOperator.run op env (start st))) in
    In RequestRestore (steps env op tr) ->
    exists pvc scaled gone, steps env op tr = documented_order pvc scaled gone.

(** The steps up to the re-verification, as [execute] takes them when
    it completes. *)
Definition provisioned_shape (l : list in_place_step) : Prop :=
  exists pvc q g v,
    l = [ResolveSource pvc; RecordReplicas; Quiesce q] ++ g
        ++ [DeleteVolumes true; AwaitTargetAbsent pvc true; RecreateEmpty pvc true;
            StartHelper true]
        ++ v
    /\ ((q = true /\ exists b, g = [AwaitPodsGone b]) \/ (q = false /\ g = []))
    /\ (v = [ReadReplicas ReadZero; AwaitPodsGone true]
        \/ v = [ReadReplicas WorkloadMissing]).

(** The shape of the steps of a gated in-place restore. *)
Definition gated_shape (l : list in_place_step) : Prop :=
  In RequestRestore l ->
  exists l0, l = l0 ++ [RequestRestore] /\ provisioned_shape l0.

(** ** Sample inputs *)

Definition quiet_env : Env :=
  {| answer := fun _ _ => Ok PUnit;
     now := fun _ => "2024-01-01T00:00:00Z";
     api_fault := fun _ _ => None;
     stop_at := None;
     ocp_cluster := "ocp1";
     clone_id := "20240101000000" |}.


Definition backup_spec : OpSpec :=
  {| spec_cluster := "pg1"; spec_action := Some "backup";
     spec_operator := Some "zalando"; spec_restore_mode := None;
     spec_restore_date := None |}.

(** A backup Operation whose job J1 was just started. *)
Definition started_backup : CR :=
  {| cr_namespace := "db"; cr_name := "op1"; cr_deletionTimestamp := None;
     cr_spec := backup_spec;
     cr_status := {[ "jobId" := VStr "J1" ]} |}.

Definition in_place_restore_spec : OpSpec :=
  {| spec_cluster := "pg1"; spec_action := Some "restore";
     spec_operator := Some "zalando"; spec_restore_mode := Some "in-place";
     spec_restore_date := Some "1700000000" |}.

Definition in_place_restore_op : Operation.t :=
  {| Operation.name := "op2"; Operation.cluster := "pg1";
     Operation.action := "restore"; Operation.operator := "zalando";
     Operation.restore_date := "1700000000"; Operation.restore_mode := "in-place";
     Operation.namespace := "db" |}.

(** An environment in which the scale-down of the cluster fails with a
    server error and every other call succeeds; the workload reads 0
    replicas, the vendor hands out job J2 in state Running. *)
Definition scale_fails_env : Env :=
  {| answer := fun _ ev =>
       match ev with
       | EScaleZalandoCluster _ _ _ => Raise (ApiException 500 "Internal Server Error")
       | EGetPvcName _ _ _ => Ok (PStr "pgdata-pg1-0")
       | EGetOriginalReplicas _ _ => Ok (PInt 3)
       | EReadSts _ _ => Ok (POptInt (Some 0))
       | ESdkLookup _ => Ok (PStr "instance")
       | ECreateRestoreTask _ _ => Ok (PStr "J2")
       | EGetJobStatus _ => Ok (PStr "Running")
       | _ => Ok PUnit
       end;
     now := fun _ => "2024-01-01T00:00:00Z";
     api_fault := fun _ _ => None;
     stop_at := None;
     ocp_cluster := "ocp1";
     clone_id := "20240101000000" |}.

(** A running backup of the same cluster, admitted earlier. *)
Definition rival_backup : CR :=
  {| cr_namespace := "db"; cr_name := "op0"; cr_deletionTimestamp := None;
     cr_spec := backup_spec; cr_status := {[ "phase" := VStr "Running" ]} |}.

(** The Operation of [started_backup]. *)
Definition backup_op : Operation.t :=
  {| Operation.name := "op1"; Operation.cluster := "pg1";
     Operation.action := "backup"; Operation.operator := "zalando";
     Operation.restore_date := ""; Operation.restore_mode := "";
     Operation.namespace := "db" |}.

(** The resource of an in-place restore whose job has ended, with the
    replica count recorded at admission. *)
Definition restored_in_place : CR :=
  {| cr_namespace := "db"; cr_name := "op2"; cr_deletionTimestamp := None;
     cr_spec := in_place_restore_spec;
     cr_status := {[ "jobId" := VStr "J2"; "originalReplicas" := VInt 3 ]} |}.

(** ** Provisioning against resources that exist *)


Definition is_task_request (ev : event) : bool :=
  match ev with
  | ECreateBackupTask _ | ECreateRestoreTask _ _ => true
  | _ => false
  end.






(** [m] only appends calls that request no vendor task. *)
Definition requests_no_task {A} (m : M A) : Prop :=
  forall env w, exists new,
    trace (snd (m env w)) = trace w ++ new
    /\ Forall (fun ev => is_task_request ev = false) new.

(** How an admission that went past provisioning ends: with the job id
    recorded, or with the failure of the task start recorded. *)
Definition start_recorded (op : Operation.t) (started : result string)
           (tail : list event) : Prop :=
  let ns := Operation.namespace op in
  let name := Operation.name op in
  match started with
  | Ok job_id =>
      exists initial ts,
        tail = [EGetJobStatus job_id; ENow;
                EPatchStatus ns name (BackupOperator.started_fields op initial ts job_id)]
  | Raise e =>
      (exists msg, e = CommvaultApiException msg)
      /\ exists ts,
          tail = [ENow;
                  EPatchStatus ns name
                    (BackupOperator.failed_fields "CommvaultNoJob"
                       ("CreateTask failure: " ++ exn_str e) ts)]
  end.

(** The shape of an admission: no vendor task is requested at all, or
    provisioning returned normally in a world [w1] whose trace holds no
    task request, the task start ran from there, and its outcome was
    recorded. *)
Definition task_follows_provisioning (env : Env) (s : strategy) (op : Operation.t)
           (tr : list event) : Prop :=
  Forall (fun ev => is_task_request ev = false) tr
  \/ exists w0 w1 started w2 tail,
      execute s op env w0 = (Ok tt, w1)
      /\ Forall (fun ev => is_task_request ev = false) (trace w1)
      /\ start_commvault_task s op env w1 = (started, w2)
      /\ tr = trace w2 ++ tail
      /\ start_recorded op started tail.

Definition restore_spec : OpSpec :=
  {| spec_cluster := "pg1"; spec_action := Some "restore";
     spec_operator := Some "zalando"; spec_restore_mode := None;
     spec_restore_date := Some "1700000000" |}.



(** The name of the volume a restore creates for source volume [pvc]. *)
Definition restore_target (env : Env) (op : Operation.t) (pvc : string) : string :=
  if Operation.is_restore_in_place op then pvc
  else (pvc ++ "-restore-" ++ clone_id env)%string.

(** An environment in which every call succeeds: the source volume is
    found, its snapshot class resolves, the vendor hands out job J1 in
    state Running. *)
Definition ready_env : Env :=
  {| answer := fun _ ev =>
       match ev with
       | EGetPvcName _ _ _ => Ok (PStr "pgdata-pg1-0")
       | EResolveSnapshotClass _ _ => Ok (PSnapClass (Some "csi-snapclass") "" "")
       | EDeterminePostgresParams _ _ => Ok (PStr "postgres:15")
       | ESdkLookup _ => Ok (PStr "subclient")
       | ECreateBackupTask _ => Ok (PStr "J1")
       | EGetJobStatus _ => Ok (PStr "Running")
       | _ => Ok PUnit
       end;
     now := fun _ => "2024-01-01T00:00:00Z";
     api_fault := fun _ _ => None;
     stop_at := None;
     ocp_cluster := "ocp1";
     clone_id := "20240101000000" |}.

(** ** Source and target volumes *)

(** The volumes created, and the volumes read, by the calls of [tr]. *)
Definition created_volumes (tr : list event) : list string :=
  flat_map (fun ev => match ev with ECreatePvc _ name _ _ => [name] | _ => [] end) tr.

Definition read_volumes (tr : list event) : list string :=
  flat_map (fun ev => match ev with EReadPvc _ name => [name] | _ => [] end) tr.

(** [name] is [src] with something appended. *)
Definition derived_name (src name : string) : Prop :=
  exists suffix, suffix <> "" /\ name = (src ++ suffix)%string.

(** The target claim as worded: whatever a CNPG Operation creates is
    named after a source volume it read, and differs from it. *)
Definition cnpg_targets_are_disposable : Prop :=
  forall (env : Env) (st : list CR) (op : Operation.t) (s : strategy),
    Operation.operator op = "cnpg" ->
    get_strategy op = Ok s ->
    let tr := trace (snd (execute s op env (start st))) in
    forall name, In name (created_volumes tr) ->
                 exists src, In src (read_volumes tr) /\ derived_name src name.

(** The name of the volume created for source volume [pvc]. *)
Definition target_name (env : Env) (s : strategy) (op : Operation.t) (pvc : string)
  : string :=
  if is_restore_strategy s then restore_target env op pvc
  else (pvc ++ "-clone-" ++ clone_id env)%string.

Definition cnpg_in_place_spec : OpSpec :=
  {| spec_cluster := "pg1"; spec_action := Some "restore";
     spec_operator := Some "cnpg"; spec_restore_mode := Some "in-place";
     spec_restore_date := Some "1700000000" |}.

(** An in-place restore of a CNPG cluster. *)
Definition cnpg_in_place_op : Operation.t :=
  {| Operation.name := "op4"; Operation.cluster := "pg1";
     Operation.action := "restore"; Operation.operator := "cnpg";
     Operation.restore_date := "1700000000"; Operation.restore_mode := "in-place";
     Operation.namespace := "db" |}.

Definition cnpg_backup_op : Operation.t :=
  {| Operation.name := "op5"; Operation.cluster := "pg1";
     Operation.action := "backup"; Operation.operator := "cnpg";
     Operation.restore_date := ""; Operation.restore_mode := "";
     Operation.namespace := "db" |}.

(** An environment in which every call succeeds and the first instance
    of the cluster mounts the data volume [pg1-1] and the WAL volume
    [pg1-1-wal]. *)
Definition cnpg_env : Env :=
  {| answer := fun _ ev =>
       match ev with
       | EReadPod _ _ => Ok (PStrs ["pg1-1"; "pg1-1-wal"])
       | EResolveSnapshotClass _ _ => Ok (PSnapClass (Some "csi-snapclass") "" "")
       | EDeterminePostgresImage _ _ => Ok (PStr "postgres:15")
       | _ => Ok PUnit
       end;
     now := fun _ => "2024-01-01T00:00:00Z";
     api_fault := fun _ _ => None;
     stop_at := None;
     ocp_cluster := "ocp1";
     clone_id := "20240101000000" |}.

(** ** Operations as constructed *)

(** The action and the operator an Operation is built with: the
    fields of the spec, defaulted and lower-cased. *)
Definition requested_action (spec : OpSpec) : string :=
  PyStr.lower (Operation.or_default (spec_action spec) "backup").

Definition requested_operator (spec : OpSpec) : string :=
  PyStr.lower (Operation.or_default (spec_operator spec) "zalando").

(** A spec with mixed-case fields. *)
Definition mixed_case_spec : OpSpec :=
  {| spec_cluster := "pg1"; spec_action := Some "Restore";
     spec_operator := Some "CNPG"; spec_restore_mode := Some "In-Place";
     spec_restore_date := Some "1700000000" |}.

Definition unknown_operator_op : Operation.t :=
  {| Operation.name := "op6"; Operation.cluster := "pg1";
     Operation.action := "backup"; Operation.operator := "crunchy";
     Operation.restore_date := ""; Operation.restore_mode := "";
     Operation.namespace := "db" |}.

(** A restore date the vendor client accepts: none, or a decimal Unix
    time within the years 1 to 9999. *)
Definition valid_restore_date (d : string) : Prop :=
  d = "" \/ exists t, PyInt.of_string d = Some t
                      /\ CommvaultApi.timestamp_in_range t = true.

(** A restore whose date is not a Unix time. *)
Definition dated_restore_op : Operation.t :=
  {| Operation.name := "op7"; Operation.cluster := "pg1";
     Operation.action := "restore"; Operation.operator := "zalando";
     Operation.restore_date := "2024-01-01"; Operation.restore_mode := "in-place";
     Operation.namespace := "db" |}.

(** An environment in which the security policy cannot be ensured. *)
Definition scc_forbidden_env : Env :=
  {| answer := fun _ ev =>
       match ev with
       | EEnsureCommvaultScc _ => Raise (ApiException 403 "Forbidden")
       | _ => Ok PUnit
       end;
     now := fun _ => "2024-01-01T00:00:00Z";
     api_fault := fun _ _ => None;
     stop_at := None;
     ocp_cluster := "ocp1";
     clone_id := "20240101000000" |}.

(** The class the resolver named, if it named a non-empty one. *)
Definition named_class (p : payload) : option string :=
  match p with
  | PSnapClass (Some c) _ _ => if PyStr.truthy c then Some c else None
  | PSnapClass None _ _ => None
  | _ => match as_optstr p with
         | Some c => if PyStr.truthy c then Some c else None
         | None => None
         end
  end.

Definition failure_of (p : payload) : string * string :=
  match p with
  | PSnapClass _ r m => (r, m)
  | _ => ("", "")
  end.

(*VOCAB-END*)

(** * Properties *)

(** ** Job status classification and phase mapping *)

Section PhaseMapping.

Import CommvaultJobStatus.

Lemma in_tuple_iff (x : string) (l : list string) :
  PyStr.in_tuple x l = true <-> In x l.
Proof.
  unfold PyStr.in_tuple. rewrite existsb_exists. split.
  - intros [y [Hy Heq]]. apply String.eqb_eq in Heq. now subst.
  - intros H. exists x. split; [assumption | apply String.eqb_refl].
Qed.

Lemma init_some_nonempty (s : string) :
  s <> "" -> init (Some s) = Build s.
Proof. destruct s; [congruence | reflexivity]. Qed.

Lemma init_status_cases (raw : option string) :
  (exists s, raw = Some s /\ s <> "" /\ _status (init raw) = s)
  \/ ((raw = None \/ raw = Some "") /\ _status (init raw) = UNKNOWN).
Proof.
  destruct raw as [[|c s]|]; simpl; [right | left | right]; eauto.
Qed.




End PhaseMapping.

Section PhaseMappingClaims.

Import CommvaultJobStatus.

(** C10.  For every raw status string [s], success of
    [CommvaultJobStatus(s)] implies terminality; success holds exactly
    when [s] starts, ignoring case, with "completed"; terminality holds
    exactly when it does so or [s] is literally "Failed" or "Killed".
    Failure detection is thus case-sensitive while the phase mapping is
    not: "failed" maps to phase Failed without being terminal. *)
Theorem job_status_terminal_case_sensitive :
  (forall s : string,
      let j := init (Some s) in
      (is_success j = true -> is_terminal j = true)
      /\ (is_success j = true
          <-> PyStr.startswith (PyStr.lower s) "completed" = true)
      /\ (is_terminal j = true
          <-> PyStr.startswith (PyStr.lower s) "completed" = true
              \/ s = "Failed" \/ s = "Killed"))
  /\ (map_phase_from_status (PyJob (init (Some "failed"))) = "Failed"
      /\ is_terminal (init (Some "failed")) = false).
Proof.
  split; [| split; reflexivity].
  intros s j. subst j. destruct s as [|c r].
  - vm_compute. repeat split; try discriminate; intuition discriminate.
  - rewrite init_some_nonempty by discriminate.
    unfold is_success, is_terminal, lower. cbn [_status].
    rewrite orb_true_iff, in_tuple_iff. cbn [In].
    intuition congruence.
Qed.

Lemma job_status_terminal_case_sensitive_witness :
  is_success (init (Some "Completed w/ errors")) = true
  /\ is_terminal (init (Some "Completed w/ errors")) = true.
Proof.
  split; [reflexivity |].
  apply (proj1 (proj1 job_status_terminal_case_sensitive "Completed w/ errors")).
  reflexivity.
Defined.




End PhaseMappingClaims.

(** ** Status patches *)

Section Store.
Import K8sBackupApi.

Lemma same_key_with_status ns name f cr :
  same_key ns name (with_status f cr) = same_key ns name cr.
Proof. reflexivity. Qed.

Lemma find_update_status ns name ns' name' f st :
  List.find (same_key ns' name') (update_cr ns name (with_status f) st)
  = if same_key ns name <$> List.find (same_key ns' name') st is Some true
    then with_status f <$> List.find (same_key ns' name') st
    else List.find (same_key ns' name') st.
Proof.
  induction st as [|cr st IH]; [reflexivity |].
  cbn [update_cr List.map List.find]. fold (update_cr ns name (with_status f) st).
  destruct (same_key ns name cr) eqn:E.
  - rewrite same_key_with_status.
    destruct (same_key ns' name' cr) eqn:E'; cbn; [now rewrite E | apply IH].
  - destruct (same_key ns' name' cr) eqn:E'; cbn; [now rewrite E | apply IH].
Qed.

Lemma existsb_find ns name st :
  List.existsb (same_key ns name) st = true
  <-> is_Some (List.find (same_key ns name) st).
Proof.
  induction st as [|cr st IH]; cbn.
  - split; [discriminate | intros [? ?]; discriminate].
  - destruct (same_key ns name cr); cbn; [split; eauto | exact IH].
Qed.

Lemma patch_status_effect env w ns name fields :
  exists w',
    patch_status ns name fields env w = (Ok tt, w')
    /\ trace w' = trace w ++ [EPatchStatus ns name fields]
    /\ patch_effect fields ns name (store w) (store w').
Proof.
  unfold patch_status.
  set (w1 := push (EPatchStatus ns name fields) w).
  assert (Hsend : forall current w2,
             store w2 = store w -> trace w2 = trace w1 ->
             (current = ∅ \/ List.find (same_key ns name) (store w) <> None /\
                    Some current = cr_status <$> List.find (same_key ns name) (store w)) ->
             exists w', 
               match patch_namespaced_custom_object_status
                       (api_fault env (trace w1) 1) (store w2) ns name (fields ∪ current) with
               | (Ok _, st') => (Ok tt, set_store st' w2)
               | (Raise (ApiException c _), st') =>
                   if c =? 404 then (Ok tt, set_store st' w2)
                   else (Ok tt, push_log "info" ("Status PATCH failed for " ++ name)
                                  (set_store st' w2))
               | (Raise _, st') =>
                   (Ok tt, push_log "info" ("Unexpected error in patch_status for " ++ name)
                             (set_store st' w2))
               end = (Ok tt, w')
               /\ trace w' = trace w ++ [EPatchStatus ns name fields]
               /\ patch_effect fields ns name (store w) (store w')).
  { intros current w2 Hst Htr Hcur.
    unfold patch_namespaced_custom_object_status. rewrite Hst.
    destruct (api_fault env (trace w1) 1) as [c|].
    - destruct (c =? 404); eexists; (split; [reflexivity |]); cbn; rewrite Htr;
        (split; [reflexivity | now apply PatchDropped]).
    - destruct (List.existsb (same_key ns name) (store w)) eqn:E.
      + eexists; split; [reflexivity |]. cbn. rewrite Htr. split; [reflexivity |].
        eapply PatchApplied; [now apply existsb_find | exact Hcur | reflexivity].
      + cbn. eexists; split; [reflexivity |]. cbn. rewrite Htr.
        split; [reflexivity | now apply PatchDropped]. }
  unfold get_namespaced_custom_object.
  destruct (api_fault env (trace w1) 0) as [c|].
  - destruct (c =? 404) eqn:E404.
    + eexists; split; [reflexivity |]. split; [reflexivity | now apply PatchDropped].
    + apply (Hsend ∅ (push_log "info" ("Status GET failed for " ++ name) w1)); [reflexivity | reflexivity | now left].
  - cbn [store w1 push].
    destruct (List.find (same_key ns name) (store w)) as [obj|] eqn:Ef.
    + apply (Hsend (cr_status obj) w1); [reflexivity | reflexivity |]. right. split; [discriminate | reflexivity].
    + cbn. eexists; split; [reflexivity |]. split; [reflexivity | now apply PatchDropped].
Qed.

Lemma patch_status_no_fault env w ns name fields obj :
  (forall h i, api_fault env h i = None) ->
  List.find (same_key ns name) (store w) = Some obj ->
  patch_status ns name fields env w
  = (Ok tt,
     set_store (update_cr ns name
                  (with_status (fun old => (fields ∪ cr_status obj) ∪ old)) (store w))
               (push (EPatchStatus ns name fields) w)).
Proof.
  intros Hnf Hf. unfold patch_status, get_namespaced_custom_object,
    patch_namespaced_custom_object_status.
  rewrite !Hnf. cbn [store push]. rewrite Hf.
  assert (E : List.existsb (same_key ns name) (store w) = true)
    by (apply existsb_find; rewrite Hf; eauto).
  rewrite E. reflexivity.
Qed.

Lemma status_of_update ns name f st w :
  store w = update_cr ns name (with_status f) st ->
  status_of w ns name
  = f <$> (cr_status <$> List.find (same_key ns name) st).
Proof.
  intros H. unfold status_of. rewrite H, find_update_status.
  destruct (List.find (same_key ns name) st) as [cr|] eqn:E; [| reflexivity].
  apply List.find_some in E as [_ E]. cbn. rewrite E. reflexivity.
Qed.

Lemma patch_status_keeps_other_fields env w ns name fields k :
  fields !! k = None ->
  status_field (snd (patch_status ns name fields env w)) ns name k
  = status_field w ns name k.
Proof.
  intros Hk.
  destruct (patch_status_effect env w ns name fields) as (w' & -> & _ & Heff).
  cbn [snd]. unfold status_field.
  destruct Heff as [Hsame | current Hex Hcur Hupd].
  - unfold status_of. now rewrite Hsame.
  - rewrite (status_of_update _ _ _ _ _ Hupd). unfold status_of.
    destruct (List.find (same_key ns name) (store w)) as [cr|]; [| reflexivity].
    cbn. rewrite !lookup_union, Hk.
    destruct Hcur as [-> | [_ Hc]].
    + rewrite lookup_empty. now destruct (cr_status cr !! k).
    + cbn in Hc. injection Hc as ->. now destruct (cr_status cr !! k).
Qed.

Lemma patch_status_is_some env w ns name fields :
  is_Some (status_of (snd (patch_status ns name fields env w)) ns name)
  <-> is_Some (status_of w ns name).
Proof.
  destruct (patch_status_effect env w ns name fields) as (w' & -> & _ & Heff).
  cbn [snd].
  destruct Heff as [Hsame | current Hex Hcur Hupd].
  - unfold status_of. now rewrite Hsame.
  - rewrite (status_of_update _ _ _ _ _ Hupd). unfold status_of.
    destruct (List.find (same_key ns name) (store w)); cbn; split; eauto.
Qed.

Lemma patch_status_applies env w ns name fields old :
  (forall h i, api_fault env h i = None) ->
  status_of w ns name = Some old ->
  status_of (snd (patch_status ns name fields env w)) ns name
  = Some (fields ∪ old).
Proof.
  intros Hnf Hold. unfold status_of in Hold.
  destruct (List.find (same_key ns name) (store w)) as [obj|] eqn:Hf; [| discriminate].
  cbn in Hold. injection Hold as <-.
  rewrite (patch_status_no_fault env w ns name fields obj Hnf Hf). cbn [snd].
  erewrite status_of_update by reflexivity.
  cbn [store push]. rewrite Hf. cbn. f_equal.
  rewrite <- (assoc_L (∪)). now rewrite (idemp_L (∪)).
Qed.

(** C8.  Two successive merge-patches with disjoint field sets leave
    the union of their fields in the status, each field with the value
    of the patch that set it; and whatever the API does, a field named
    by neither patch keeps its stored value: the status is never
    overwritten wholesale. *)
Theorem patch_status_merges_fields
        (env : Env) (w : World) (ns name : string) (p1 p2 : gmap string value) :
  let w1 := snd (patch_status ns name p1 env w) in
  let w2 := snd (patch_status ns name p2 env w1) in
  (forall k, p1 !! k = None -> p2 !! k = None ->
             status_field w2 ns name k = status_field w ns name k)
  /\ (forall old,
         (forall h i, api_fault env h i = None) ->
         status_of w ns name = Some old ->
         dom p1 ## dom p2 ->
         status_of w2 ns name = Some ((p1 ∪ p2) ∪ old)
         /\ (forall k v, p1 !! k = Some v -> status_field w2 ns name k = Some v)
         /\ (forall k v, p2 !! k = Some v -> status_field w2 ns name k = Some v)).
Proof.
  intros w1 w2. split.
  - intros k H1 H2. subst w1 w2.
    rewrite patch_status_keeps_other_fields by assumption.
    now apply patch_status_keeps_other_fields.
  - intros old Hnf Hold Hdisj.
    assert (H1 : status_of w1 ns name = Some (p1 ∪ old))
      by (now apply patch_status_applies).
    assert (H2 : status_of w2 ns name = Some (p2 ∪ (p1 ∪ old)))
      by (now apply patch_status_applies).
    assert (Hd : p1 ##ₘ p2) by (now apply map_disjoint_dom).
    assert (E : p2 ∪ (p1 ∪ old) = (p1 ∪ p2) ∪ old).
    { rewrite (assoc_L (∪)). f_equal. now apply map_union_comm. }
    rewrite E in H2. split; [exact H2 |]. unfold status_field. rewrite H2.
    split; intros k v Hk.
    + apply lookup_union_Some_l. now apply lookup_union_Some_l.
    + apply lookup_union_Some_l. rewrite map_union_comm by assumption.
      now apply lookup_union_Some_l.
Qed.
End Store.

(** ** Flows only append to the trace *)

Section Extends.

Lemma extends_ret {A} (a : A) : extends (ret a).
Proof. intros env w. exists []. cbn. now rewrite app_nil_r. Qed.

Lemma extends_raise {A} (e : exn) : extends (@raise A e).
Proof. intros env w. exists []. cbn. now rewrite app_nil_r. Qed.

Lemma extends_bind {A B} (m : M A) (k : A -> M B) :
  extends m -> (forall a, extends (k a)) -> extends (bind m k).
Proof.
  intros Hm Hk env w. unfold bind. destruct (Hm env w) as [n1 H1].
  destruct (m env w) as [[a | e] w1]; cbn in H1.
  - destruct (Hk a env w1) as [n2 H2]. exists (n1 ++ n2).
    now rewrite H2, H1, app_assoc.
  - exists n1. exact H1.
Qed.

Lemma extends_try_except {A} (m : M A) (h : exn -> M A) :
  extends m -> (forall e, extends (h e)) -> extends (try_except m h).
Proof.
  intros Hm Hh env w. unfold try_except. destruct (Hm env w) as [n1 H1].
  destruct (m env w) as [[a | e] w1]; cbn in H1.
  - exists n1. exact H1.
  - destruct (Hh e env w1) as [n2 H2]. exists (n1 ++ n2).
    now rewrite H2, H1, app_assoc.
Qed.

Lemma extends_attempt {A} (m : M A) : extends m -> extends (attempt m).
Proof.
  intros Hm env w. unfold attempt. destruct (Hm env w) as [n1 H1].
  destruct (m env w) as [r w1]. exists n1. exact H1.
Qed.

Lemma extends_call ev : extends (call ev).
Proof. intros env w. exists [ev]. reflexivity. Qed.

Lemma extends_log l m : extends (log l m).
Proof. intros env w. exists []. cbn. now rewrite app_nil_r. Qed.

Lemma extends_sleep n : extends (sleep n).
Proof. intros env w. exists [ESleep n]. reflexivity. Qed.

Lemma extends_ask_ocp : extends ask_ocp_cluster.
Proof. intros env w. exists []. cbn. now rewrite app_nil_r. Qed.

Lemma extends_ask_clone : extends ask_clone_id.
Proof. intros env w. exists []. cbn. now rewrite app_nil_r. Qed.

Lemma extends_stopped : extends stopped.
Proof. intros env w. exists []. cbn. now rewrite app_nil_r. Qed.

Lemma extends_lift {A} (r : result A) : extends (lift r).
Proof. destruct r; [apply extends_ret | apply extends_raise]. Qed.

Lemma extends_patch_status ns name fields :
  extends (K8sBackupApi.patch_status ns name fields).
Proof.
  intros env w.
  destruct (patch_status_effect env w ns name fields) as (w' & -> & Ht & _).
  eexists. exact Ht.
Qed.

Lemma delete_cr_effect env w ns name :
  exists w',
    K8sBackupApi.delete_cr ns name env w = (Ok tt, w')
    /\ trace w' = trace w ++ [EDeleteCr ns name]
    /\ (store w' = store w
        \/ store w' = K8sBackupApi.update_cr ns name K8sBackupApi.terminating (store w)).
Proof.
  unfold K8sBackupApi.delete_cr, K8sBackupApi.delete_namespaced_custom_object.
  destruct (api_fault env _ 0) as [c|].
  - destruct (c =? 404); eexists; (split; [reflexivity |]); cbn; auto.
  - cbn [store push].
    destruct (List.existsb _ (store w)); eexists; (split; [reflexivity |]); cbn; auto.
Qed.

Lemma extends_delete_cr ns name : extends (K8sBackupApi.delete_cr ns name).
Proof.
  intros env w. destruct (delete_cr_effect env w ns name) as (w' & -> & Ht & _).
  eexists. exact Ht.
Qed.

Lemma extends_guard ns cluster name :
  extends (K8sBackupApi.another_operation_in_progress ns cluster name).
Proof.
  intros env w. unfold K8sBackupApi.another_operation_in_progress.
  exists [EListOperations ns].
  destruct (K8sBackupApi.list_namespaced_custom_object _ _ _) as [items | []];
    reflexivity.
Qed.

End Extends.

Create HintDb extends.
#[export] Hint Resolve extends_ret extends_raise extends_call extends_log extends_sleep
  extends_ask_ocp extends_ask_clone extends_stopped extends_lift
  extends_patch_status extends_delete_cr extends_guard : extends.

Ltac extends_step :=
  match goal with
  | |- extends (bind _ _) => apply extends_bind; [| intros ?]
  | |- extends (try_except _ _) => apply extends_try_except; [| intros ?]
  | |- extends (attempt _) => apply extends_attempt
  | |- extends (call_ _) => unfold call_
  | |- extends (if ?b then _ else _) => destruct b
  | |- extends (match ?x with _ => _ end) => destruct x
  | |- extends _ => solve [auto with extends]
  end.

Ltac solve_extends := repeat extends_step.

Section ExtendsFlows.

Lemma extends_get_utc_timestamp : extends get_utc_timestamp.
Proof. intros env w. exists [ENow]. reflexivity. Qed.

Lemma extends_get_job_status j : extends (CommvaultApi.get_job_status_by_id j).
Proof. unfold CommvaultApi.get_job_status_by_id. solve_extends. Qed.

Lemma extends_wrap_failure what c e : extends (CommvaultApi.wrap_failure what c e).
Proof. unfold CommvaultApi.wrap_failure. solve_extends. Qed.

Lemma extends_job_id_of what c p : extends (CommvaultApi.job_id_of what c p).
Proof. unfold CommvaultApi.job_id_of. solve_extends. Qed.

Hint Resolve extends_get_utc_timestamp extends_get_job_status
  extends_wrap_failure extends_job_id_of : extends.

Lemma extends_create_backup_task c : extends (CommvaultApi.create_backup_task c).
Proof. unfold CommvaultApi.create_backup_task. solve_extends. Qed.

Lemma extends_create_restore_task c t : extends (CommvaultApi.create_restore_task c t).
Proof. unfold CommvaultApi.create_restore_task. solve_extends. Qed.

Hint Resolve extends_create_backup_task extends_create_restore_task : extends.

Lemma extends_api_error_is_temporary {A} what e :
  extends (@api_error_is_temporary A what e).
Proof. unfold api_error_is_temporary. solve_extends. Qed.

Lemma extends_accept_already_exists m what e :
  extends (accept_already_exists m what e).
Proof. unfold accept_already_exists. solve_extends. Qed.

Hint Resolve extends_api_error_is_temporary extends_accept_already_exists : extends.

Lemma extends_resolve_snapshot_class ns n pvc :
  extends (resolve_snapshot_class_for_pvc ns n pvc).
Proof. unfold resolve_snapshot_class_for_pvc. solve_extends. Qed.

Lemma extends_create_helper op n i m : extends (_create_helper_statefulset op n i m).
Proof. unfold _create_helper_statefulset. solve_extends. Qed.

Hint Resolve extends_resolve_snapshot_class extends_create_helper : extends.

Lemma extends_create_target_pvc s op pvc : extends (_create_target_pvc s op pvc).
Proof.
  unfold _create_target_pvc, restore_create_target_pvc, backup_create_target_pvc.
  solve_extends.
Qed.

Lemma extends_start_commvault_task s op : extends (start_commvault_task s op).
Proof. unfold start_commvault_task. solve_extends. Qed.

Hint Resolve extends_create_target_pvc extends_start_commvault_task : extends.

Lemma extends_zalando_execute s op : extends (ZalandoOperationStrategy.execute s op).
Proof.
  unfold ZalandoOperationStrategy.execute, ZalandoOperationStrategy.get_pvc_name,
    ZalandoOperationStrategy.scale_zalando_cluster_to_zero_replicas,
    ZalandoOperationStrategy.ensure_cluster_quiesced.
  solve_extends.
Qed.

Lemma extends_clone_each s op l m : extends (CNPGOperationStrategy.clone_each s op l m).
Proof.
  revert m. induction l as [|p l IH]; intros m; cbn [CNPGOperationStrategy.clone_each].
  - solve_extends.
  - solve_extends; apply IH.
Qed.

Hint Resolve extends_zalando_execute extends_clone_each : extends.

Lemma extends_cnpg_execute s op : extends (CNPGOperationStrategy.execute s op).
Proof.
  unfold CNPGOperationStrategy.execute, CNPGOperationStrategy._create_target_pvcs.
  solve_extends.
Qed.

Hint Resolve extends_cnpg_execute : extends.

Lemma extends_execute s op : extends (execute s op).
Proof. unfold execute. solve_extends. Qed.

Lemma extends_finalize op body st : extends (BackupOperator.finalize op body st).
Proof.
  unfold BackupOperator.finalize, BackupOperator.run_patronictl_remove.
  solve_extends.
Qed.

Hint Resolve extends_execute extends_finalize : extends.

Lemma extends_run op : extends (BackupOperator.run op).
Proof. unfold BackupOperator.run. solve_extends. Qed.

Lemma extends_poll j raw : extends (Daemon.poll j raw).
Proof. intros env w. exists [EGetJobStatus j]. reflexivity. Qed.

Hint Resolve extends_poll : extends.

Lemma extends_poll_loop op j polls last st :
  extends (Daemon.poll_loop op j polls last st).
Proof.
  revert last st. induction polls as [|raw rest IH]; intros last st;
    cbn [Daemon.poll_loop].
  - solve_extends.
  - solve_extends; apply IH.
Qed.

Hint Resolve extends_poll_loop : extends.

Lemma extends_wait_and_cleanup polls body : extends (Daemon.wait_and_cleanup polls body).
Proof. unfold Daemon.wait_and_cleanup, Daemon.conclude. solve_extends. Qed.

End ExtendsFlows.


Section Admission.
Import K8sBackupApi.

Lemma phase_is_finished_iff cr :
  phase_is_finished (cr_status cr) = true <-> in_terminal_phase cr.
Proof.
  unfold phase_is_finished, in_terminal_phase.
  destruct (cr_status cr !! "phase") as [[p | | |]|].
  - rewrite in_tuple_iff. split.
    + intros H. exists p. auto.
    + intros (q & Hq & Hin). now injection Hq as ->.
  - split; [discriminate | intros (q & Hq & _); discriminate].
  - split; [discriminate | intros (q & Hq & _); discriminate].
  - split; [discriminate | intros (q & Hq & _); discriminate].
  - split; [discriminate | intros (q & Hq & _); discriminate].
Qed.

Lemma deleting_iff cr : deleting cr = true <-> being_deleted cr.
Proof.
  unfold deleting, being_deleted. destruct (cr_deletionTimestamp cr) as [t|].
  - split.
    + intros H. exists t. split; [reflexivity |]. now destruct t.
    + intros (t' & [= <-] & Hne). now destruct t.
  - split; [discriminate | intros (t' & Ht & _); discriminate].
Qed.

Lemma same_key_iff ns name cr : same_key ns name cr = true <-> has_key ns name cr.
Proof.
  unfold same_key, has_key. now rewrite andb_true_iff, !String.eqb_eq.
Qed.

(** The scan reports a conflict exactly when the list holds a live
    rival, and names the first one. *)
Lemma scan_items_conflict cluster current items :
  fst (scan_items cluster current items) = true
  <-> exists cr, In cr items /\ cr_name cr <> current
                 /\ spec_cluster (cr_spec cr) = cluster
                 /\ ~ in_terminal_phase cr /\ ~ being_deleted cr.
Proof.
  induction items as [|it rest IH]; cbn [scan_items].
  - cbn. split; [discriminate | intros (cr & [] & _)].
  - destruct (String.eqb (cr_name it) current) eqn:En.
    { apply String.eqb_eq in En. rewrite IH. split.
      - intros (cr & Hin & H). exists cr. split; [now right | exact H].
      - intros (cr & [<- | Hin] & Hne & H); [congruence |]. exists cr. auto. }
    apply String.eqb_neq in En.
    destruct (deleting it) eqn:Ed.
    { apply deleting_iff in Ed. rewrite IH. split.
      - intros (cr & Hin & H). exists cr. split; [now right | exact H].
      - intros (cr & [<- | Hin] & Hne & Hc & Ht & Hd); [contradiction |].
        exists cr. auto. }
    assert (Hnd : ~ being_deleted it)
      by (intros H; apply deleting_iff in H; congruence).
    destruct (String.eqb (spec_cluster (cr_spec it)) cluster) eqn:Ec; cbn [negb].
    2:{ apply String.eqb_neq in Ec. rewrite IH. split.
        - intros (cr & Hin & H). exists cr. split; [now right | exact H].
        - intros (cr & [<- | Hin] & Hne & Hc & Ht & Hd); [contradiction |].
          exists cr. auto. }
    apply String.eqb_eq in Ec.
    destruct (phase_is_finished (cr_status it)) eqn:Ep.
    { apply phase_is_finished_iff in Ep. rewrite IH. split.
      - intros (cr & Hin & H). exists cr. split; [now right | exact H].
      - intros (cr & [<- | Hin] & Hne & Hc & Ht & Hd); [contradiction |].
        exists cr. auto. }
    assert (Hnt : ~ in_terminal_phase it)
      by (intros H; apply phase_is_finished_iff in H; congruence).
    cbn. split; [| reflexivity]. intros _. exists it. auto.
Qed.

Lemma scan_items_none cluster current items :
  fst (scan_items cluster current items) = false ->
  scan_items cluster current items = (false, None).
Proof.
  induction items as [|it rest IH]; cbn [scan_items]; [reflexivity |].
  repeat match goal with |- context [if ?b then _ else _] => destruct b end;
    auto; discriminate.
Qed.

Lemma guard_listed env st ns cluster current :
  api_fault env [EListOperations ns] 0 = None ->
  another_operation_in_progress ns cluster current env (start st)
  = (Ok (scan_items cluster current
           (List.filter (fun cr => String.eqb (cr_namespace cr) ns) st)),
     push (EListOperations ns) (start st)).
Proof.
  intros Hf. unfold another_operation_in_progress, list_namespaced_custom_object.
  cbn. rewrite Hf. reflexivity.
Qed.

Lemma guard_conflict_iff env st ns cluster current :
  api_fault env [EListOperations ns] 0 = None ->
  (exists other,
      fst (another_operation_in_progress ns cluster current env (start st))
      = Ok (true, other))
  <-> exists cr, In cr st /\ live_rival ns cluster current cr.
Proof.
  intros Hf. rewrite (guard_listed env st ns cluster current Hf). cbn [fst].
  set (items := List.filter _ st).
  split.
  - intros (other & [= H]).
    assert (Hc : fst (scan_items cluster current items) = true) by now rewrite H.
    apply scan_items_conflict in Hc as (cr & Hin & Hne & Hc & Ht & Hd).
    apply filter_In in Hin as [Hin Hns]. apply String.eqb_eq in Hns.
    exists cr. unfold live_rival. auto 10.
  - intros (cr & Hin & Hns & Hne & Hc & Ht & Hd).
    assert (Hs : fst (scan_items cluster current items) = true).
    { apply scan_items_conflict. exists cr. repeat split; auto.
      apply filter_In. split; [exact Hin | now apply String.eqb_eq]. }
    destruct (scan_items cluster current items) as [b other]. cbn in Hs. subst b.
    now exists other.
Qed.

End Admission.

Section AdmissionRun.
Import K8sBackupApi.

Lemma rewrites_only_refl ns name st : rewrites_only ns name st st.
Proof. exists (fun cr => cr). split; [now rewrite List.map_id | auto]. Qed.

Lemma rewrites_only_trans ns name st1 st2 st3 :
  rewrites_only ns name st1 st2 -> rewrites_only ns name st2 st3 ->
  rewrites_only ns name st1 st3.
Proof.
  intros (g & -> & Hg1 & Hg2) (g' & -> & Hg1' & Hg2').
  exists (fun cr => g' (g cr)). rewrite List.map_map. split; [reflexivity |].
  split; intros cr H.
  - rewrite (Hg1 cr H). now apply Hg1'.
  - now apply Hg2', Hg2.
Qed.

Lemma update_cr_rewrites_only ns name f st :
  (forall cr, has_key ns name cr -> has_key ns name (f cr)) ->
  rewrites_only ns name st (update_cr ns name f st).
Proof.
  intros Hf. exists (fun cr => if same_key ns name cr then f cr else cr).
  split; [reflexivity |]. split; intros cr H.
  - destruct (same_key ns name cr) eqn:E; [| reflexivity].
    apply same_key_iff in E. contradiction.
  - pose proof H as H'. apply same_key_iff in H'. rewrite H'. now apply Hf.
Qed.

Lemma patch_effect_rewrites_only fields ns name st st' :
  patch_effect fields ns name st st' -> rewrites_only ns name st st'.
Proof.
  intros [-> | current _ _ ->]; [apply rewrites_only_refl |].
  apply update_cr_rewrites_only. auto.
Qed.

Lemma first_step_taken {A} ev (k : unit -> M A) env w :
  (forall a, extends (k a)) ->
  In ev (trace (snd (bind (call_ ev) k env w))).
Proof.
  intros Hk. unfold call_. unfold bind, call, ret.
  destruct (answer env (trace w) ev) as [p | e].
  - destruct (Hk tt env (push ev w)) as [new Hn]. rewrite Hn. cbn.
    apply in_or_app. left. apply in_or_app. right. now left.
  - cbn. apply in_or_app. right. now left.
Qed.

(** Past the guard, the admission takes its first provisioning step. *)
Lemma run_without_conflict env st op w1 :
  another_operation_in_progress (Operation.namespace op) (Operation.cluster op)
    (Operation.name op) env (start st) = (Ok (false, None), w1) ->
  proceeds (Operation.namespace op) (trace (snd (BackupOperator.run op env (start st))))
  /\ ~ rejected (Operation.namespace op) (Operation.name op)
       (trace (snd (BackupOperator.run op env (start st)))).
Proof.
  intros Hg.
  assert (Hin : proceeds (Operation.namespace op)
                  (trace (snd (BackupOperator.run op env (start st))))).
  { unfold BackupOperator.run, bind at 1. rewrite Hg. cbn [fst].
    apply first_step_taken. intros _. solve_extends;
      auto using extends_execute, extends_start_commvault_task,
        extends_get_job_status, extends_get_utc_timestamp with extends. }
  split; [exact Hin |].
  intros (msg & Hr). unfold proceeds in Hin. rewrite Hr in Hin.
  cbn in Hin. intuition discriminate.
Qed.

Lemma delete_cr_no_fault env w ns name :
  no_faults env ->
  List.existsb (same_key ns name) (store w) = true ->
  store (snd (delete_cr ns name env w)) = update_cr ns name terminating (store w).
Proof.
  intros Hnf He. unfold delete_cr, delete_namespaced_custom_object.
  rewrite Hnf. cbn [store push]. rewrite He. reflexivity.
Qed.

Lemma existsb_update_cr ns name f st :
  (forall cr, same_key ns name (f cr) = same_key ns name cr) ->
  List.existsb (same_key ns name) (update_cr ns name f st)
  = List.existsb (same_key ns name) st.
Proof.
  intros Hf. induction st as [|cr st IH]; [reflexivity |].
  cbn. fold (update_cr ns name f st). rewrite IH.
  destruct (same_key ns name cr) eqn:E; [now rewrite Hf, E | now rewrite E].
Qed.

Lemma deleting_terminating cr : deleting (terminating cr) = true.
Proof.
  unfold terminating, deleting at 1. cbn.
  destruct (deleting cr) eqn:E; [exact E | reflexivity].
Qed.

(** The conflict branch of [run]. *)
Lemma run_on_conflict env st op other w1 :
  let ns := Operation.namespace op in
  let name := Operation.name op in
  another_operation_in_progress ns (Operation.cluster op) name env (start st)
    = (Ok (true, other), w1) ->
  store w1 = st -> trace w1 = [EListOperations ns] ->
  exists w',
    BackupOperator.run op env (start st) = (Ok tt, w')
    /\ rejected ns name (trace w')
    /\ rewrites_only ns name st (store w')
    /\ (no_faults env ->
        forall cr', In cr' (store w') -> has_key ns name cr' ->
                    cr_status cr' !! "phase" = Some (VStr "Rejected")
                    /\ cr_status cr' !! "reason" = Some (VStr "ConcurrentOperation")
                    /\ being_deleted cr').
Proof.
  intros ns name Hg Hst Htr.
  unfold BackupOperator.run, bind at 1. fold ns name. rewrite Hg. cbn [fst snd].
  set (fields := BackupOperator.rejected_fields
                   (BackupOperator.conflict_message op other)).
  unfold bind.
  destruct (patch_status_effect env w1 ns name fields) as (w2 & E2 & T2 & P2).
  rewrite E2.
  destruct (delete_cr_effect env w2 ns name) as (w3 & E3 & T3 & D3).
  rewrite E3. exists w3. split; [reflexivity |]. split; [| split].
  - exists (BackupOperator.conflict_message op other).
    rewrite T3, T2, Htr. reflexivity.
  - rewrite Hst in P2.
    apply (rewrites_only_trans _ _ _ (store w2)).
    + now apply patch_effect_rewrites_only with (fields := fields).
    + destruct D3 as [-> | ->]; [apply rewrites_only_refl |].
      apply update_cr_rewrites_only. auto.
  - intros Hnf cr' Hin Hk.
    destruct (List.find (same_key ns name) st) as [obj|] eqn:Ef.
    + assert (S2 : store w2 = update_cr ns name
                     (with_status (fun old => (fields ∪ cr_status obj) ∪ old)) st).
      { pose proof (patch_status_no_fault env w1 ns name fields obj Hnf) as Hp.
        rewrite Hst in Hp. specialize (Hp Ef). rewrite E2 in Hp.
        injection Hp as ->. reflexivity. }
      assert (S3 : store w3 = update_cr ns name terminating (store w2)).
      { pose proof (delete_cr_no_fault env w2 ns name Hnf) as Hd.
        rewrite E3 in Hd. cbn [snd] in Hd. apply Hd.
        rewrite S2, existsb_update_cr by reflexivity.
        apply existsb_find. rewrite Ef. eauto. }
      rewrite S3, S2 in Hin. unfold update_cr in Hin.
      rewrite List.map_map in Hin. apply in_map_iff in Hin as (cr & <- & Hcr).
      destruct (same_key ns name cr) eqn:Ek.
      * rewrite same_key_with_status, Ek.
        split; [| split].
        -- cbn [cr_status terminating with_status]. rewrite !lookup_union.
           unfold fields, BackupOperator.rejected_fields. rewrite lookup_insert_eq. cbn.
           now destruct (cr_status obj !! "phase"), (cr_status cr !! "phase").
        -- cbn [cr_status terminating with_status]. rewrite !lookup_union.
           unfold fields, BackupOperator.rejected_fields.
           rewrite lookup_insert_ne, lookup_insert_eq by discriminate. cbn.
           now destruct (cr_status obj !! "reason"), (cr_status cr !! "reason").
        -- apply deleting_iff, deleting_terminating.
      * rewrite Ek in Hk. apply same_key_iff in Hk. congruence.
    + exfalso.
      assert (S2 : store w2 = st).
      { destruct P2 as [-> | current Hex _ _]; [exact Hst |].
        rewrite Hst, Ef in Hex. destruct Hex; discriminate. }
      assert (S3 : store w3 = st).
      { destruct D3 as [-> | ->]; [exact S2 |]. rewrite S2.
        unfold update_cr. rewrite <- (List.map_id st) at 2.
        apply List.map_ext_in. intros cr Hcr.
        destruct (same_key ns name cr) eqn:Ek; [| reflexivity].
        apply (List.find_none _ _ Ef) in Hcr. congruence. }
      rewrite S3 in Hin. apply (List.find_none _ _ Ef) in Hin.
      apply same_key_iff in Hk. congruence.
Qed.


Lemma run_rejects env st op :
  let ns := Operation.namespace op in
  let name := Operation.name op in
  api_fault env [EListOperations ns] 0 = None ->
  (exists cr, In cr st /\ live_rival ns (Operation.cluster op) name cr) ->
  exists w',
    BackupOperator.run op env (start st) = (Ok tt, w')
    /\ rejected ns name (trace w')
    /\ rewrites_only ns name st (store w')
    /\ (no_faults env ->
        forall cr', In cr' (store w') -> has_key ns name cr' ->
                    cr_status cr' !! "phase" = Some (VStr "Rejected")
                    /\ cr_status cr' !! "reason" = Some (VStr "ConcurrentOperation")
                    /\ being_deleted cr').
Proof.
  intros ns name Hf Hr.
  apply (guard_conflict_iff env st ns (Operation.cluster op) name Hf) in Hr
    as (other & Hg).
  pose proof (guard_listed env st ns (Operation.cluster op) name Hf) as Hl.
  rewrite Hl in Hg. cbn [fst] in Hg. injection Hg as Hg. rewrite Hg in Hl.
  exact (run_on_conflict env st op other _ Hl eq_refl eq_refl).
Qed.

Lemma run_admits env st op :
  let ns := Operation.namespace op in
  let name := Operation.name op in
  api_fault env [EListOperations ns] 0 = None ->
  ~ (exists cr, In cr st /\ live_rival ns (Operation.cluster op) name cr) ->
  proceeds ns (trace (snd (BackupOperator.run op env (start st))))
  /\ ~ rejected ns name (trace (snd (BackupOperator.run op env (start st)))).
Proof.
  intros ns name Hf Hn.
  pose proof (guard_listed env st ns (Operation.cluster op) name Hf) as Hl.
  destruct (fst (scan_items (Operation.cluster op) name
              (List.filter (fun cr => String.eqb (cr_namespace cr) ns) st))) eqn:Es.
  - exfalso. apply Hn.
    apply (guard_conflict_iff env st ns (Operation.cluster op) name Hf).
    rewrite Hl. cbn [fst].
    destruct (scan_items _ _ _) as [b o]. cbn in Es. subst b. eauto.
  - rewrite (scan_items_none _ _ _ Es) in Hl.
    exact (run_without_conflict env st op _ Hl).
Qed.

Lemma run_list_failure env st op c :
  let ns := Operation.namespace op in
  let name := Operation.name op in
  api_fault env [EListOperations ns] 0 = Some c ->
  fst (another_operation_in_progress ns (Operation.cluster op) name env (start st))
  = Ok (false, None)
  /\ proceeds ns (trace (snd (BackupOperator.run op env (start st))))
  /\ ~ rejected ns name (trace (snd (BackupOperator.run op env (start st)))).
Proof.
  intros ns name Hf.
  assert (Hg : another_operation_in_progress ns (Operation.cluster op) name env (start st)
               = (Ok (false, None),
                  push_log "info" "Cannot list CRs" (push (EListOperations ns) (start st)))).
  { unfold another_operation_in_progress, list_namespaced_custom_object.
    cbn. rewrite Hf. reflexivity. }
  split; [now rewrite Hg |].
  exact (run_without_conflict env st op _ Hg).
Qed.

End AdmissionRun.

Section AdmissionClaim.
Import K8sBackupApi.

Lemma terminal_of_rejected cr :
  cr_status cr !! "phase" = Some (VStr "Rejected") -> in_terminal_phase cr.
Proof. intros H. exists "Rejected". split; [exact H | cbn; auto]. Qed.

(** After one of two live Operations on a cluster has been rejected,
    the admission of the other finds no rival. *)
Lemma second_admission_proceeds env env2 st op op2 :
  let ns := Operation.namespace op in
  let name := Operation.name op in
  no_faults env -> no_faults env2 ->
  Operation.namespace op2 = ns ->
  Operation.cluster op2 = Operation.cluster op ->
  (exists b, In b st /\ has_key ns (Operation.name op2) b
             /\ live_rival ns (Operation.cluster op) name b) ->
  (forall cr, In cr st ->
              live_rival ns (Operation.cluster op) (Operation.name op2) cr ->
              has_key ns name cr) ->
  rejected ns name (trace (snd (BackupOperator.run op env (start st))))
  /\ ~ proceeds ns (trace (snd (BackupOperator.run op env (start st))))
  /\ proceeds ns
       (trace (snd (BackupOperator.run op2 env2
                      (start (store (snd (BackupOperator.run op env (start st)))))))).
Proof.
  intros ns name Hnf Hnf2 Hns Hcl (b & Hb & _ & Hlive) Honly.
  destruct (run_rejects env st op (Hnf _ _) (ex_intro _ b (conj Hb Hlive)))
    as (w' & Hrun & Hrej & Hrw & Hown).
  rewrite Hrun. cbn [snd].
  split; [exact Hrej |]. split.
  { destruct Hrej as (msg & ->). unfold proceeds. cbn. intuition discriminate. }
  specialize (Hown Hnf).
  pose proof (run_admits env2 (store w') op2) as Hadm. cbn zeta in Hadm.
  rewrite Hns, Hcl in Hadm. apply Hadm; [apply Hnf2 |].
  intros (cr' & Hin' & Hl').
  destruct Hrw as (g & Hst & Hg1 & Hg2). rewrite Hst in Hin'.
  apply in_map_iff in Hin' as (cr & <- & Hin).
  destruct (same_key ns name cr) eqn:Ek.
  - apply same_key_iff in Ek. apply Hg2 in Ek.
    assert (Hin2 : In (g cr) (store w')) by (rewrite Hst; now apply in_map).
    destruct (Hown (g cr) Hin2 Ek) as (Hp & _ & _).
    destruct Hl' as (_ & _ & _ & Hnt & _). apply Hnt. now apply terminal_of_rejected.
  - assert (Hnk : ~ has_key ns name cr)
      by (intros H; apply same_key_iff in H; congruence).
    rewrite (Hg1 cr Hnk) in Hl'. apply Hnk. now apply Honly.
Qed.

(** C1.  Admission against a store [st], Operations being told apart
    by (namespace, name).
    - When the list request works, the admitting Operation is rejected
      exactly when another Operation of its namespace targets the same
      cluster and is neither in a terminal phase nor being deleted.
      Rejection is: status patched to Rejected / ConcurrentOperation,
      then the resource deleted, nothing else done; no other resource of
      the store is changed.  Otherwise admission goes on to provisioning.
    - When the list request fails with an API error, the guard reports
      no conflict and admission goes on.
    - Of two live Operations on one cluster, admitted one after the
      other, exactly one goes on: the first is rejected and removed, the
      second then finds no rival. *)
Theorem admission_exclusive (env : Env) (st : list CR) (op : Operation.t) :
  let ns := Operation.namespace op in
  let name := Operation.name op in
  let cluster := Operation.cluster op in
  let out := BackupOperator.run op env (start st) in
  (api_fault env [EListOperations ns] 0 = None ->
   ((exists cr, In cr st /\ live_rival ns cluster name cr) ->
    fst out = Ok tt
    /\ rejected ns name (trace (snd out))
    /\ ~ proceeds ns (trace (snd out))
    /\ rewrites_only ns name st (store (snd out))
    /\ (no_faults env ->
        forall cr', In cr' (store (snd out)) -> has_key ns name cr' ->
                    cr_status cr' !! "phase" = Some (VStr "Rejected")
                    /\ cr_status cr' !! "reason" = Some (VStr "ConcurrentOperation")
                    /\ being_deleted cr'))
   /\ (~ (exists cr, In cr st /\ live_rival ns cluster name cr) ->
       proceeds ns (trace (snd out)) /\ ~ rejected ns name (trace (snd out))))
  /\ (forall c, api_fault env [EListOperations ns] 0 = Some c ->
                fst (another_operation_in_progress ns cluster name env (start st))
                = Ok (false, None)
                /\ proceeds ns (trace (snd out))
                /\ ~ rejected ns name (trace (snd out)))
  /\ (forall env2 op2,
         no_faults env -> no_faults env2 ->
         Operation.namespace op2 = ns -> Operation.cluster op2 = cluster ->
         (exists b, In b st /\ has_key ns (Operation.name op2) b
                    /\ live_rival ns cluster name b) ->
         (forall cr, In cr st -> live_rival ns cluster (Operation.name op2) cr ->
                     has_key ns name cr) ->
         rejected ns name (trace (snd out))
         /\ ~ proceeds ns (trace (snd out))
         /\ proceeds ns (trace (snd (BackupOperator.run op2 env2 (start (store (snd out))))))).
Proof.
  intros ns name cluster out. split; [| split].
  - intros Hf. split.
    + intros Hr.
      destruct (run_rejects env st op Hf Hr) as (w' & Hrun & Hrej & Hrw & Hown).
      subst out. rewrite Hrun. cbn [fst snd].
      split; [reflexivity |]. split; [exact Hrej |].
      split; [| split; [exact Hrw | exact Hown]].
      destruct Hrej as (msg & ->). unfold proceeds. cbn. intuition discriminate.
    + intros Hn. exact (run_admits env st op Hf Hn).
  - intros c Hf. exact (run_list_failure env st op c Hf).
  - intros env2 op2 Hnf Hnf2 Hns Hcl Hb Honly.
    exact (second_admission_proceeds env env2 st op op2 Hnf Hnf2 Hns Hcl Hb Honly).
Qed.

End AdmissionClaim.

(** ** Finalization *)

Ltac run_call :=
  match goal with
  | |- context [answer ?env ?h ?ev] =>
      let E := fresh "E" in destruct (answer env h ev) eqn:E
  end.

Section Finalize.
Import BackupOperator.

Lemma desired_replicas_floor st : 1 <= desired_replicas st.
Proof.
  unfold desired_replicas.
  destruct (_ <? 1) eqn:E; [lia | apply Z.ltb_ge in E; exact E].
Qed.

Lemma finalize_skips op body status env w :
  finalization_applies op status = false ->
  exists ls, finalize op body status env w
             = (Ok tt, {| store := store w; trace := trace w; logs := logs w ++ ls |})
             /\ (forall j, status = PyJob j -> ls = []).
Proof.
  intros H. unfold finalize, finalization_applies in *.
  destruct status as [| s | j]; cbn in *.
  - eexists. split; [reflexivity | discriminate].
  - eexists. split; [reflexivity | discriminate].
  - unfold try_except, bind, lift, ret. cbn. rewrite H. exists [].
    rewrite app_nil_r. destruct w. split; [reflexivity | reflexivity].
Qed.

Lemma world_eq {A} (r : result A) st tr lg tr' lg' new ls :
  tr' = tr ++ new -> lg' = lg ++ ls ->
  (r, {| store := st; trace := tr'; logs := lg' |})
  = (r, {| store := st; trace := tr ++ new; logs := lg ++ ls |}).
Proof. now intros -> ->. Qed.

Lemma finalize_runs op body j env w :
  finalization_applies op (PyJob j) = true ->
  exists new ls,
    finalize op body (PyJob j) env w
    = (Ok tt, {| store := store w; trace := trace w ++ new; logs := logs w ++ ls |})
    /\ length ls = failures env (trace w) new
    /\ new `sublist_of` recovery_steps op (ocp_cluster env)
                                        (desired_replicas (cr_status body))
    /\ (failures env (trace w) new = 0%nat ->
        new = recovery_steps op (ocp_cluster env) (desired_replicas (cr_status body))).
Proof.
  intros H. unfold finalize, finalization_applies in *. cbn in H.
  unfold try_except at 1. unfold bind at 1. unfold lift, py_is_success, ret.
  rewrite H.
  unfold recovery_steps, run_patronictl_remove.
  set (n := desired_replicas (cr_status body)).
  set (ns := Operation.namespace op). set (cl := Operation.cluster op).
  unfold ask_ocp_cluster, bind, try_except, call_, call, ret, log, bind. cbn [trace push].
  set (hp := Operation.get_operation_id op (ocp_cluster env)).
  destruct w as [st tr lg]. cbn [trace store logs push push_log].
  repeat (first [ run_call
                | match goal with
                  | |- context [match api_status ?e with _ => _ end] =>
                      destruct (api_status e)
                  | |- context [if 1 <? n then _ else _] => destruct (1 <? n) eqn:En
                  end ]; unfold raise;
          cbn [trace store logs push push_log fst snd]).
  all: eexists _, _; unfold push, push_log; cbn [trace store logs].
  all: (split; [apply world_eq;
                first [ reflexivity
                      | rewrite <- !app_assoc; cbn [app]; reflexivity
                      | symmetry; apply app_nil_r ] |]).
  all: cbn [failures length]; rewrite ?E, ?E0, ?E1, ?E2, ?E3, ?E4.
  all: (split; [reflexivity |]).
  all: (split; [cbn [app];
                solve [repeat first [ apply sublist_nil_l | apply sublist_skip
                                    | apply sublist_cons ]] |]).
  all: first [ discriminate | intros _; reflexivity ].
Qed.

Lemma failures_none env h new :
  (forall h' ev, exists p, answer env h' ev = Ok p) ->
  failures env h new = 0%nat.
Proof.
  intros Hok. revert h. induction new as [|ev rest IH]; intros h; [reflexivity |].
  cbn [failures]. destruct (Hok h ev) as [p ->]. now rewrite IH.
Qed.

Lemma sublist_untouched op ocp n new :
  new `sublist_of` recovery_steps op ocp n ->
  Forall (fun ev => touches_operation ev = false) new.
Proof.
  intros Hs. apply Forall_forall. intros ev Hin.
  assert (Hin' : ev ∈ recovery_steps op ocp n).
  { eapply sublist_subseteq; [exact Hs |].
    first [exact Hin | now apply list_elem_of_In]. }
  unfold recovery_steps in Hin'. apply list_elem_of_In in Hin'.
  apply in_app_or in Hin' as [Hin' | Hin'].
  - cbn in Hin'. repeat (destruct Hin' as [<- | Hin']; [reflexivity |]).
    contradiction.
  - destruct (1 <? n); cbn in Hin'; [| contradiction].
    destruct Hin' as [<- | []]. reflexivity.
Qed.

(** C7.  The finalization never raises and never writes to the
    Operation: its calls are recovery steps only, taken in their order.
    It takes no step at all unless the job succeeded and the Operation
    is a zalando in-place restore.  Each failing step leaves one log
    line.  The replica count to return to is at least 1 whatever was
    recorded, and is the recorded integer when that is at least 1.
    With 3 recorded and every step succeeding, the helper workload is
    scaled to 0 and its pods awaited gone first, then the cluster is
    started with 1 replica and finally scaled to 3. *)
Theorem finalize_best_effort
        (env : Env) (w : World) (op : Operation.t) (body : CR) (status : pystatus) :
  let out := finalize op body status env w in
  let steps := recovery_steps op (ocp_cluster env) (desired_replicas (cr_status body)) in
  fst out = Ok tt
  /\ store (snd out) = store w
  /\ (exists new ls,
         trace (snd out) = trace w ++ new
         /\ logs (snd out) = logs w ++ ls
         /\ new `sublist_of` steps
         /\ Forall (fun ev => touches_operation ev = false) new
         /\ (forall j, status = PyJob j -> length ls = failures env (trace w) new)
         /\ (finalization_applies op status = false -> new = [])
         /\ (finalization_applies op status = true ->
             (forall h ev, exists p, answer env h ev = Ok p) ->
             new = steps))
  /\ 1 <= desired_replicas (cr_status body)
  /\ (forall n, 1 <= n -> cr_status body !! "originalReplicas" = Some (VInt n) ->
                desired_replicas (cr_status body) = n)
  /\ (cr_status body !! "originalReplicas" = Some (VInt 3) ->
      steps = [EScaleStatefulSet (Operation.namespace op)
                 (Operation.get_operation_id op (ocp_cluster env)) 0;
               EWaitStsPodsGone (Operation.namespace op)
                 (Operation.get_operation_id op (ocp_cluster env));
               EScaleZalandoCluster (Operation.namespace op) (Operation.cluster op) 1;
               EWaitPodReady (Operation.namespace op) (Operation.cluster op ++ "-0");
               EPatronictlRemove (Operation.namespace op) (Operation.cluster op)
                 (Operation.cluster op ++ "-0");
               EScaleZalandoCluster (Operation.namespace op) (Operation.cluster op) 3]).
Proof.
  intros out steps.
  assert (Hclamp : forall n, 1 <= n ->
             cr_status body !! "originalReplicas" = Some (VInt n) ->
             desired_replicas (cr_status body) = n).
  { intros n Hn Hl. unfold desired_replicas. rewrite Hl. cbn.
    destruct (n =? 0) eqn:E0; [apply Z.eqb_eq in E0; lia |]. cbn.
    destruct (n <? 1) eqn:E1; [apply Z.ltb_lt in E1; lia | reflexivity]. }
  assert (Hmain :
            fst out = Ok tt /\ store (snd out) = store w
            /\ exists new ls,
                trace (snd out) = trace w ++ new
                /\ logs (snd out) = logs w ++ ls
                /\ new `sublist_of` steps
                /\ Forall (fun ev => touches_operation ev = false) new
                /\ (forall j, status = PyJob j -> length ls = failures env (trace w) new)
                /\ (finalization_applies op status = false -> new = [])
                /\ (finalization_applies op status = true ->
                    (forall h ev, exists p, answer env h ev = Ok p) ->
                    new = steps)).
  { subst out. destruct (finalization_applies op status) eqn:Ea.
    - destruct status as [| s | j]; try discriminate Ea.
      destruct (finalize_runs op body j env w Ea) as (new & ls & -> & Hlen & Hsub & Hall).
      cbn [fst snd store trace logs]. split; [reflexivity |]. split; [reflexivity |].
      exists new, ls.
      split; [reflexivity |]. split; [reflexivity |]. split; [exact Hsub |].
      split; [eapply sublist_untouched; exact Hsub |].
      split; [intros j' [= <-]; exact Hlen |].
      split; [discriminate |].
      intros _ Hok. apply Hall. now apply failures_none.
    - destruct (finalize_skips op body status env w Ea) as (ls & -> & Hls).
      cbn [fst snd store trace logs]. split; [reflexivity |]. split; [reflexivity |].
      exists [], ls. rewrite app_nil_r.
      split; [reflexivity |]. split; [reflexivity |]. split; [apply sublist_nil_l |].
      split; [constructor |].
      split; [intros j Hj; now rewrite (Hls j Hj) |].
      split; [reflexivity | discriminate]. }
  destruct Hmain as (H1 & H2 & H3).
  split; [exact H1 |]. split; [exact H2 |]. split; [exact H3 |].
  split; [apply desired_replicas_floor |]. split; [exact Hclamp |].
  intros H3r. subst steps. rewrite (Hclamp 3 ltac:(lia) H3r). reflexivity.
Qed.
End Finalize.

(** ** The polling daemon *)

Section Loop.
Import Daemon.




End Loop.

Section DaemonClaims.
Import Daemon.








(** *** Cancellation *)



Lemma late_before p t off l :
  (off + length l <= t)%nat -> late p t off l = 0%nat.
Proof.
  revert off. induction l as [|x l IH]; intros off H; [reflexivity |].
  cbn [late length] in *. rewrite IH by lia.
  destruct (Nat.leb t off) eqn:E; [apply Nat.leb_le in E; lia |].
  now rewrite andb_false_r.
Qed.




End DaemonClaims.

(** ** In-place restore: order of the steps *)

Section Stepping.

Lemma world_eta w : w = {| store := store w; trace := trace w; logs := logs w |}.
Proof. now destruct w. Qed.

Lemma patch_status_eq env w ns name f :
  K8sBackupApi.patch_status ns name f env w
  = (Ok tt,
     {| store := store (snd (K8sBackupApi.patch_status ns name f env w));
        trace := trace w ++ [EPatchStatus ns name f];
        logs := logs (snd (K8sBackupApi.patch_status ns name f env w)) |}).
Proof.
  destruct (patch_status_effect env w ns name f) as (w' & E & T & _).
  rewrite E at 1. cbn [snd]. rewrite E. cbn [snd]. rewrite <- T.
  now rewrite <- world_eta.
Qed.

Lemma delete_cr_eq env w ns name :
  K8sBackupApi.delete_cr ns name env w
  = (Ok tt,
     {| store := store (snd (K8sBackupApi.delete_cr ns name env w));
        trace := trace w ++ [EDeleteCr ns name];
        logs := logs (snd (K8sBackupApi.delete_cr ns name env w)) |}).
Proof.
  destruct (delete_cr_effect env w ns name) as (w' & E & T & _).
  rewrite E at 1. cbn [snd]. rewrite E. cbn [snd]. rewrite <- T.
  now rewrite <- world_eta.
Qed.

Lemma guard_eq env w ns cluster name :
  exists r lg,
    K8sBackupApi.another_operation_in_progress ns cluster name env w
    = (r, {| store := store w; trace := trace w ++ [EListOperations ns]; logs := lg |})
    /\ (forall e, r <> Raise e).
Proof.
  unfold K8sBackupApi.another_operation_in_progress,
    K8sBackupApi.list_namespaced_custom_object.
  destruct (api_fault env _ 0); eexists _, _; (split; [reflexivity | discriminate]).
Qed.

End Stepping.

(** Symbolic execution of a flow against an abstract environment. *)
Ltac step_patch :=
  match goal with
  | |- context [K8sBackupApi.patch_status ?ns ?name ?f ?env ?w] =>
      rewrite (patch_status_eq env w ns name f);
      generalize (store (snd (K8sBackupApi.patch_status ns name f env w)));
      generalize (logs (snd (K8sBackupApi.patch_status ns name f env w)));
      intros ? ?
  | |- context [K8sBackupApi.delete_cr ?ns ?name ?env ?w] =>
      rewrite (delete_cr_eq env w ns name);
      generalize (store (snd (K8sBackupApi.delete_cr ns name env w)));
      generalize (logs (snd (K8sBackupApi.delete_cr ns name env w)));
      intros ? ?
  end.

Ltac flow_unfold :=
  cbv beta iota zeta delta
    [bind try_except attempt call_ call ret raise log lift sleep
     ask_ocp_cluster ask_clone_id get_utc_timestamp api_error_is_temporary
     accept_already_exists is_restore_strategy is_zalando_strategy
     trace store logs push push_log fst snd].

Ltac step_call :=
  match goal with
  | |- context [match answer ?env ?h ?ev with _ => _ end] =>
      let E := fresh "E" in destruct (answer env h ev) eqn:E
  | |- context [match api_status ?e with _ => _ end] =>
      let E := fresh "Ea" in destruct (api_status e) eqn:E
  | |- context [if is_commvault_exception ?e then _ else _] =>
      let E := fresh "Ec" in destruct (is_commvault_exception e) eqn:E
  | |- context [match as_optstr ?p with _ => _ end] =>
      let E := fresh "Eo" in destruct (as_optstr p) eqn:E
  | |- context [match as_optint ?p with _ => _ end] =>
      let E := fresh "Eo" in destruct (as_optint p) eqn:E
  | |- context [match PyInt.of_value ?v with _ => _ end] =>
      let E := fresh "Ei" in destruct (PyInt.of_value v) eqn:E
  | |- context [if negb (?n =? 0) then _ else _] =>
      let E := fresh "Eb" in destruct (n =? 0) eqn:E; cbv beta iota delta [negb]
  | |- context [if ?c =? 409 then _ else _] =>
      let E := fresh "E9" in destruct (c =? 409) eqn:E
  | |- context [if ?c =? 404 then _ else _] =>
      let E := fresh "E4" in destruct (c =? 404) eqn:E
  | |- context [if PyStr.truthy ?x then _ else _] =>
      let E := fresh "Eb" in destruct (PyStr.truthy x) eqn:E
  | |- context [if CommvaultApi.timestamp_in_range ?x then _ else _] =>
      let E := fresh "Eb" in destruct (CommvaultApi.timestamp_in_range x) eqn:E
  end.

Section InPlace.

Lemma world_eq' {A} (r : A) st tr lg tr' new :
  tr' = tr ++ new ->
  (r, {| store := st; trace := tr'; logs := lg |})
  = (r, {| store := st; trace := tr ++ new; logs := lg |}).
Proof. now intros ->. Qed.


Lemma rejected_not_a_record msg :
  BackupOperator.rejected_fields msg !! "originalReplicas" = None.
Proof. reflexivity. Qed.

Lemma failed_not_a_record r m t :
  BackupOperator.failed_fields r m t !! "originalReplicas" = None.
Proof. reflexivity. Qed.

Lemma started_not_a_record op j t i :
  BackupOperator.started_fields op j t i !! "originalReplicas" = None.
Proof. reflexivity. Qed.

Lemma original_replicas_recorded n :
  original_replicas_fields n !! "originalReplicas" = Some (VInt n).
Proof. reflexivity. Qed.


Lemma in_place_strategy op :
  Operation.operator op = "zalando" ->
  Operation.is_restore_in_place op = true ->
  get_strategy op = Ok ZalandoRestore.
Proof.
  intros Ho Hi. unfold get_strategy. rewrite Ho. cbn.
  unfold Operation.is_restore_in_place in Hi. apply andb_true_iff in Hi as [Ha _].
  now rewrite Ha.
Qed.

Lemma step_of_quiesce op ns a :
  step_of op (EScaleZalandoCluster ns (Operation.cluster op) 0, a)
  = Some (Quiesce (is_ok a)).
Proof. cbn. now rewrite String.eqb_refl. Qed.

Lemma step_of_pods_gone op ns a :
  step_of op (EWaitStsPodsGone ns (Operation.cluster op), a)
  = Some (AwaitPodsGone (is_ok a)).
Proof. cbn. now rewrite String.eqb_refl. Qed.

Lemma step_of_record op ns name n a :
  step_of op (EPatchStatus ns name (original_replicas_fields n), a)
  = Some RecordReplicas.
Proof. reflexivity. Qed.

Lemma step_of_failed op ns name r m t a :
  step_of op (EPatchStatus ns name (BackupOperator.failed_fields r m t), a) = None.
Proof. reflexivity. Qed.

Lemma step_of_started op ns name o j t i a :
  step_of op (EPatchStatus ns name (BackupOperator.started_fields o j t i), a) = None.
Proof. reflexivity. Qed.

Lemma step_of_rejected op ns name m a :
  step_of op (EPatchStatus ns name (BackupOperator.rejected_fields m), a) = None.
Proof. reflexivity. Qed.

Lemma restore_step_needs_request env op h new :
  In RequestRestore (steps_from env op h new) ->
  exists c d, In (ECreateRestoreTask c d) new.
Proof.
  revert h. induction new as [|ev rest IH]; intros h; cbn [steps_from]; [intros [] |].
  intros Hin. apply in_app_or in Hin as [Hin | Hin].
  - destruct (step_of op (ev, answer env h ev)) as [s|] eqn:Es; [| destruct Hin].
    destruct Hin as [-> | []].
    destruct ev; cbn in Es;
      repeat match type of Es with
             | context [match ?x with _ => _ end] => destruct x
             end; try discriminate.
    eexists _, _. left. reflexivity.
  - destruct (IH _ Hin) as (c & d & H). exists c, d. now right.
Qed.

Lemma steps_from_app env op h a b :
  steps_from env op h (a ++ b)
  = steps_from env op h a ++ steps_from env op (h ++ a) b.
Proof.
  revert h. induction a as [|x a IH]; intros h; cbn [steps_from app].
  - now rewrite app_nil_r.
  - rewrite IH, <- !app_assoc. reflexivity.
Qed.

Ltac steps_compute :=
  cbn [steps_from app];
  repeat match goal with
         | E : answer _ _ _ = _ |- _ => rewrite E
         end;
  rewrite ?step_of_quiesce, ?step_of_pods_gone, ?step_of_record, ?step_of_failed,
    ?step_of_started, ?step_of_rejected;
  cbn [step_of is_ok app];
  repeat match goal with
         | E : api_status _ = _ |- _ => rewrite E
         | E : as_optint _ = _ |- _ => rewrite E
         | E : (_ =? _) = _ |- _ => rewrite E
         end.

Ltac leaf_world :=
  eexists; split;
  [apply world_eq;
   first [ reflexivity
         | rewrite <- !app_assoc; cbn [app]; reflexivity
         | symmetry; apply app_nil_r ] |].

Lemma execute_in_place_steps env w op :
  Operation.is_restore_in_place op = true ->
  exists r new st' lg,
    ZalandoOperationStrategy.execute ZalandoRestore op env w
    = (r, {| store := st'; trace := trace w ++ new; logs := lg |})
    /\ ~ In RequestRestore (steps_from env op (trace w) new)
    /\ (r = Ok tt -> provisioned_shape (steps_from env op (trace w) new)).
Proof.
  intros Hi. destruct w as [st tr lg0].
  unfold ZalandoOperationStrategy.execute,
    ZalandoOperationStrategy.get_pvc_name,
    ZalandoOperationStrategy.scale_zalando_cluster_to_zero_replicas,
    ZalandoOperationStrategy.ensure_cluster_quiesced,
    _create_target_pvc, restore_create_target_pvc, _create_helper_statefulset.
  rewrite Hi.
  flow_unfold.
  repeat (first [step_call | step_patch]; flow_unfold).
  all: eexists _, _, _, _.
  all: (split; [apply world_eq';
                first [ reflexivity
                      | rewrite <- !app_assoc; cbn [app]; reflexivity
                      | symmetry; apply app_nil_r ] |]).
  all: steps_compute.
  all: (split; [intros Hin; cbn [In] in Hin; decompose [or] Hin;
                try discriminate; contradiction |]).
  all: try (intros Hr; discriminate Hr).
  all: intros _; unfold provisioned_shape.
  all: first
         [ eexists _, true, [AwaitPodsGone true], [ReadReplicas ReadZero; AwaitPodsGone true];
           split; [reflexivity | split; [left; split; [reflexivity | eexists; reflexivity] | left; reflexivity]]
         | eexists _, true, [AwaitPodsGone false], [ReadReplicas ReadZero; AwaitPodsGone true];
           split; [reflexivity | split; [left; split; [reflexivity | eexists; reflexivity] | left; reflexivity]]
         | eexists _, false, [], [ReadReplicas ReadZero; AwaitPodsGone true];
           split; [reflexivity | split; [right; split; reflexivity | left; reflexivity]]
         | eexists _, true, [AwaitPodsGone true], [ReadReplicas WorkloadMissing];
           split; [reflexivity | split; [left; split; [reflexivity | eexists; reflexivity] | right; reflexivity]]
         | eexists _, true, [AwaitPodsGone false], [ReadReplicas WorkloadMissing];
           split; [reflexivity | split; [left; split; [reflexivity | eexists; reflexivity] | right; reflexivity]]
         | eexists _, false, [], [ReadReplicas WorkloadMissing];
           split; [reflexivity | split; [right; split; reflexivity | right; reflexivity]] ].
Qed.

Lemma start_restore_steps env w op :
  exists r new st' lg,
    start_commvault_task ZalandoRestore op env w
    = (r, {| store := st'; trace := trace w ++ new; logs := lg |})
    /\ (steps_from env op (trace w) new = []
        \/ steps_from env op (trace w) new = [RequestRestore]).
Proof.
  destruct w as [st tr lg0].
  unfold start_commvault_task, CommvaultApi.create_restore_task,
    CommvaultApi.wrap_failure, CommvaultApi.job_id_of.
  flow_unfold.
  repeat (step_call; flow_unfold).
  all: eexists _, _, _, _.
  all: (split; [apply world_eq';
                first [ reflexivity
                      | rewrite <- !app_assoc; cbn [app]; reflexivity
                      | symmetry; apply app_nil_r ] |]).
  all: steps_compute.
  all: first [left; reflexivity | right; reflexivity].
Qed.

Lemma gated_when_provisioning_fails env op pre new tail tr :
  steps_from env op [] pre = [] ->
  ~ In RequestRestore (steps_from env op pre new) ->
  tr = pre ++ new ++ tail ->
  steps_from env op (pre ++ new) tail = [] ->
  gated_shape (steps env op tr).
Proof.
  intros Hpre Hno -> Htail Hin. exfalso. unfold steps in Hin.
  rewrite steps_from_app in Hin. cbn [app] in Hin.
  rewrite steps_from_app, Hpre, Htail, app_nil_r in Hin. cbn [app] in Hin.
  contradiction.
Qed.

Lemma gated_when_provisioned env op pre new new2 tail tr :
  steps_from env op [] pre = [] ->
  ~ In RequestRestore (steps_from env op pre new) ->
  provisioned_shape (steps_from env op pre new) ->
  (steps_from env op (pre ++ new) new2 = []
   \/ steps_from env op (pre ++ new) new2 = [RequestRestore]) ->
  tr = pre ++ new ++ new2 ++ tail ->
  steps_from env op ((pre ++ new) ++ new2) tail = [] ->
  gated_shape (steps env op tr).
Proof.
  intros Hpre Hno Hshape H2 -> Htail Hin. unfold steps in *.
  assert (E : steps_from env op [] (pre ++ new ++ new2 ++ tail)
              = steps_from env op pre new ++ steps_from env op (pre ++ new) new2).
  { rewrite steps_from_app. cbn [app]. rewrite Hpre. cbn [app].
    rewrite steps_from_app. f_equal.
    rewrite steps_from_app, Htail. apply app_nil_r. }
  rewrite E in *.
  destruct H2 as [H2 | H2]; rewrite H2 in *.
  - rewrite app_nil_r in Hin. contradiction.
  - eexists. split; [reflexivity | exact Hshape].
Qed.

(** C4, amended.  Whenever the admission of a zalando in-place restore
    comes to request the vendor restore task, it has taken these steps
    before, in this order: resolve the source volume, record the replica
    count, try to scale the cluster to 0 and, if that call worked, wait
    for its pods to go (a failure of either is logged and the sequence
    goes on); delete the numbered volumes, wait for the source volume's
    name to be absent, recreate it empty, start the helper workload;
    re-verify.  The re-verification passes when the workload reads 0
    replicas and the wait for its pods succeeds, or when the workload no
    longer exists. *)
Theorem in_place_restore_is_gated (env : Env) (st : list CR) (op : Operation.t) :
  Operation.operator op = "zalando" ->
  Operation.is_restore_in_place op = true ->
  gated_shape (steps env op (trace (snd (BackupOperator.run op env (start st))))).
Proof.
  intros Ho Hi.
  unfold BackupOperator.run. unfold bind at 1.
  destruct (guard_eq env (start st) (Operation.namespace op) (Operation.cluster op)
              (Operation.name op)) as (g0 & lg & -> & Hg).
  cbn [start store trace app].
  destruct g0 as [[conflict other] | e]; [| exfalso; now apply (Hg e)].
  cbn [fst snd]. destruct conflict.
  { unfold bind. step_patch. step_patch. cbn [snd trace app].
    unfold steps. steps_compute. intros []. }
  rewrite (in_place_strategy op Ho Hi). unfold execute.
  flow_unfold.
  repeat (step_call; flow_unfold).
  all: try (unfold steps; steps_compute; intros []).
  set (ns := Operation.namespace op) in *.
  set (pre := [EListOperations ns; EEnsureServiceAccount ns; EEnsureCommvaultScc ns;
               EEnsureCommcellSecret ns]).
  assert (Hpre : steps_from env op [] pre = []) by reflexivity.
  match goal with
  | |- context [ZalandoOperationStrategy.execute ZalandoRestore op env ?w] =>
      destruct (execute_in_place_steps env w op Hi)
        as (r & new & st' & lg' & Hex & Hno & Hshape);
      rewrite Hex; clear Hex
  end.
  cbn [trace app] in Hno, Hshape. fold pre in Hno, Hshape.
  flow_unfold.
  destruct r as [[] | e].
  2:{ step_patch. flow_unfold.
      eapply (gated_when_provisioning_fails env op pre new _ _ Hpre Hno);
        [subst pre; rewrite <- ?app_assoc; cbn [app]; reflexivity |].
      steps_compute. reflexivity. }
  specialize (Hshape eq_refl).
  match goal with
  | |- context [start_commvault_task ZalandoRestore op env ?w] =>
      destruct (start_restore_steps env w op)
        as (r2 & new2 & st2 & lg2 & Hex & H2);
      rewrite Hex; clear Hex
  end.
  cbn [trace app] in H2. fold pre in H2.
  flow_unfold.
  destruct r2 as [job_id | e].
  - unfold CommvaultApi.get_job_status_by_id. flow_unfold.
    step_call; flow_unfold; step_patch; flow_unfold.
    + eapply (gated_when_provisioned env op pre new new2 _ _ Hpre Hno Hshape H2);
        [subst pre; rewrite <- ?app_assoc; cbn [app]; reflexivity |].
      steps_compute. reflexivity.
    + eapply (gated_when_provisioned env op pre new new2 _ _ Hpre Hno Hshape H2);
        [subst pre; rewrite <- ?app_assoc; cbn [app]; reflexivity |].
      steps_compute. reflexivity.
  - step_patch. flow_unfold.
    eapply (gated_when_provisioned env op pre new new2 _ _ Hpre Hno Hshape H2);
      [subst pre; rewrite <- ?app_assoc; cbn [app]; reflexivity |].
    steps_compute. reflexivity.
Qed.
End InPlace.

Section InPlaceClaim.

(** C4, as worded, fails: when the call that scales the live cluster
    down raises, the wait for its pods is skipped, the failure is
    logged, and the volumes are deleted and recreated all the same; the
    restore task is requested after a re-verification that reads 0
    replicas. *)
Lemma in_place_restore_skips_wait_when_scale_fails :
  ~ in_place_restore_follows_documented_order.
Proof.
  intros H.
  specialize (H scale_fails_env [] in_place_restore_op eq_refl eq_refl).
  cbv zeta in H.
  assert (E : steps scale_fails_env in_place_restore_op
                (trace (snd (BackupOperator.run in_place_restore_op scale_fails_env
                               (start []))))
              = [ResolveSource "pgdata-pg1-0"; RecordReplicas; Quiesce false;
                 DeleteVolumes true; AwaitTargetAbsent "pgdata-pg1-0" true;
                 RecreateEmpty "pgdata-pg1-0" true; StartHelper true;
                 ReadReplicas ReadZero; AwaitPodsGone true; RequestRestore])
    by (vm_compute; reflexivity).
  rewrite E in H.
  destruct H as (pvc & scaled & gone & H).
  - cbn [In]. intuition.
  - unfold documented_order in H. discriminate H.
Qed.

Lemma in_place_restore_is_gated_witness :
  Operation.operator in_place_restore_op = "zalando"
  /\ Operation.is_restore_in_place in_place_restore_op = true
  /\ gated_shape
       (steps scale_fails_env in_place_restore_op
          (trace (snd (BackupOperator.run in_place_restore_op scale_fails_env
                         (start []))))).
Proof.
  split; [reflexivity | split; [reflexivity |]].
  apply (in_place_restore_is_gated scale_fails_env [] in_place_restore_op);
    reflexivity.
Defined.

End InPlaceClaim.

(** ** Provisioning requests no vendor task *)

Section NoTaskRequest.

Lemma rnt_ret {A} (a : A) : requests_no_task (ret a).
Proof. intros env w. exists []. cbn. now rewrite app_nil_r. Qed.

Lemma rnt_raise {A} (e : exn) : requests_no_task (@raise A e).
Proof. intros env w. exists []. cbn. now rewrite app_nil_r. Qed.

Lemma rnt_bind {A B} (m : M A) (k : A -> M B) :
  requests_no_task m -> (forall a, requests_no_task (k a)) -> requests_no_task (bind m k).
Proof.
  intros Hm Hk env w. unfold bind. destruct (Hm env w) as (n1 & H1 & F1).
  destruct (m env w) as [[a | e] w1]; cbn in H1.
  - destruct (Hk a env w1) as (n2 & H2 & F2). exists (n1 ++ n2).
    rewrite H2, H1, app_assoc. split; [reflexivity | now apply Forall_app].
  - exists n1. now split.
Qed.

Lemma rnt_try_except {A} (m : M A) (h : exn -> M A) :
  requests_no_task m -> (forall e, requests_no_task (h e)) ->
  requests_no_task (try_except m h).
Proof.
  intros Hm Hh env w. unfold try_except. destruct (Hm env w) as (n1 & H1 & F1).
  destruct (m env w) as [[a | e] w1]; cbn in H1.
  - exists n1. now split.
  - destruct (Hh e env w1) as (n2 & H2 & F2). exists (n1 ++ n2).
    rewrite H2, H1, app_assoc. split; [reflexivity | now apply Forall_app].
Qed.

Lemma rnt_attempt {A} (m : M A) : requests_no_task m -> requests_no_task (attempt m).
Proof.
  intros Hm env w. unfold attempt. destruct (Hm env w) as (n1 & H1 & F1).
  destruct (m env w) as [r w1]. exists n1. now split.
Qed.

Lemma rnt_call ev : is_task_request ev = false -> requests_no_task (call ev).
Proof. intros H env w. exists [ev]. split; [reflexivity | now constructor]. Qed.

Lemma rnt_log l m : requests_no_task (log l m).
Proof. intros env w. exists []. cbn. now rewrite app_nil_r. Qed.

Lemma rnt_ask_ocp : requests_no_task ask_ocp_cluster.
Proof. intros env w. exists []. cbn. now rewrite app_nil_r. Qed.

Lemma rnt_ask_clone : requests_no_task ask_clone_id.
Proof. intros env w. exists []. cbn. now rewrite app_nil_r. Qed.

Lemma rnt_patch_status ns name fields :
  requests_no_task (K8sBackupApi.patch_status ns name fields).
Proof.
  intros env w. rewrite patch_status_eq. cbn [snd trace].
  exists [EPatchStatus ns name fields]. split; [reflexivity | now constructor].
Qed.

End NoTaskRequest.

Ltac rnt_step :=
  match goal with
  | |- requests_no_task (bind _ _) => apply rnt_bind; [| intros ?]
  | |- requests_no_task (try_except _ _) => apply rnt_try_except; [| intros ?]
  | |- requests_no_task (attempt _) => apply rnt_attempt
  | |- requests_no_task (call_ _) => unfold call_
  | |- requests_no_task (call _) => apply rnt_call; reflexivity
  | |- requests_no_task (ret _) => apply rnt_ret
  | |- requests_no_task (raise _) => apply rnt_raise
  | |- requests_no_task (log _ _) => apply rnt_log
  | |- requests_no_task ask_ocp_cluster => apply rnt_ask_ocp
  | |- requests_no_task ask_clone_id => apply rnt_ask_clone
  | |- requests_no_task (K8sBackupApi.patch_status _ _ _) => apply rnt_patch_status
  | |- requests_no_task (if ?b then _ else _) => destruct b
  | |- requests_no_task (match ?x with _ => _ end) => destruct x
  end.

Section NoTaskRequestFlows.

Lemma rnt_create_target_pvc s op pvc : requests_no_task (_create_target_pvc s op pvc).
Proof.
  unfold _create_target_pvc, restore_create_target_pvc, backup_create_target_pvc,
    resolve_snapshot_class_for_pvc, api_error_is_temporary, accept_already_exists.
  repeat rnt_step.
Qed.

Lemma rnt_create_helper op n i m : requests_no_task (_create_helper_statefulset op n i m).
Proof. unfold _create_helper_statefulset. repeat rnt_step. Qed.

Lemma rnt_zalando_execute s op : requests_no_task (ZalandoOperationStrategy.execute s op).
Proof.
  unfold ZalandoOperationStrategy.execute, ZalandoOperationStrategy.get_pvc_name,
    ZalandoOperationStrategy.scale_zalando_cluster_to_zero_replicas,
    ZalandoOperationStrategy.ensure_cluster_quiesced, api_error_is_temporary.
  repeat first [apply rnt_create_target_pvc | apply rnt_create_helper | rnt_step].
Qed.

Lemma rnt_clone_each s op l m : requests_no_task (CNPGOperationStrategy.clone_each s op l m).
Proof.
  revert m. induction l as [|pvc rest IH]; intros m; cbn [CNPGOperationStrategy.clone_each].
  - apply rnt_ret.
  - unfold api_error_is_temporary.
    repeat first [apply rnt_create_target_pvc | apply IH | rnt_step].
Qed.

Lemma rnt_execute s op : requests_no_task (execute s op).
Proof.
  unfold execute. destruct (is_zalando_strategy s); [apply rnt_zalando_execute |].
  unfold CNPGOperationStrategy.execute, CNPGOperationStrategy._create_target_pvcs,
    api_error_is_temporary.
  repeat first [apply rnt_clone_each | apply rnt_create_helper | rnt_step].
Qed.

End NoTaskRequestFlows.

(** ** Provisioning over existing resources *)

Section Existing.













End Existing.


Section ExistingFlows.





End ExistingFlows.

(** ** The task start and the order of an admission *)

Section TaskStart.

Lemma commvault_exception_inv e :
  is_commvault_exception e = true -> exists msg, e = CommvaultApiException msg.
Proof. destruct e; try discriminate. eexists; reflexivity. Qed.

Lemma start_failure_is_typed s op env w e w' :
  start_commvault_task s op env w = (Raise e, w') ->
  exists msg, e = CommvaultApiException msg.
Proof.
  destruct w as [st tr lg].
  unfold start_commvault_task, CommvaultApi.create_restore_task,
    CommvaultApi.create_backup_task, CommvaultApi.wrap_failure, CommvaultApi.job_id_of.
  destruct s; flow_unfold.
  all: repeat (step_call; flow_unfold).
  all: intros H; try discriminate H; injection H as <- _.
  all: first [ now apply commvault_exception_inv | eexists; reflexivity ].
Qed.

Lemma run_task_follows_provisioning env st op s :
  get_strategy op = Ok s ->
  task_follows_provisioning env s op (trace (snd (BackupOperator.run op env (start st)))).
Proof.
  intros Hg. unfold BackupOperator.run. unfold bind at 1.
  destruct (guard_eq env (start st) (Operation.namespace op) (Operation.cluster op)
              (Operation.name op)) as (g0 & lg & -> & Hgd).
  cbn [start store trace app].
  destruct g0 as [[conflict other] | e]; [| exfalso; now apply (Hgd e)].
  cbn [fst snd]. destruct conflict.
  { unfold bind. step_patch. step_patch. cbn [snd trace app].
    left. repeat constructor. }
  rewrite Hg. flow_unfold.
  repeat (step_call; flow_unfold).
  all: try (left; solve [repeat constructor]).
  match goal with
  | |- context [execute s op env ?w] => set (w0 := w)
  end.
  destruct (rnt_execute s op env w0) as (new & Ht & Hf).
  destruct (execute s op env w0) as [[[] | e] w1] eqn:Ex; cbn [snd] in Ht;
    cbv beta iota.
  2:{ destruct w1 as [st1 tr1 lg1]. cbn [trace] in Ht. subst tr1.
      flow_unfold. step_patch. flow_unfold. left. subst w0. cbn [trace].
      repeat first [assumption | apply Forall_app_2 | constructor | reflexivity]. }
  destruct (extends_start_commvault_task s op env w1) as (new2 & Ht2).
  destruct (start_commvault_task s op env w1) as [started w2] eqn:Es; cbn [snd] in Ht2;
    cbv beta iota.
  assert (F1 : Forall (fun ev => is_task_request ev = false) (trace w1)).
  { rewrite Ht. subst w0. cbn [trace].
    repeat first [assumption | apply Forall_app_2 | constructor | reflexivity]. }
  right. exists w0, w1, started, w2.
  destruct w2 as [st2 tr2 lg2]. cbn [trace] in Ht2.
  destruct started as [job_id | e].
  - unfold CommvaultApi.get_job_status_by_id. flow_unfold.
    step_call; flow_unfold; step_patch; flow_unfold.
    all: eexists; split; [exact Ex | split; [exact F1 | split; [exact Es |]]].
    all: split; [rewrite <- !app_assoc; cbn [app]; reflexivity |].
    all: cbn [start_recorded]; eexists _, _; reflexivity.
  - step_patch. flow_unfold.
    eexists; split; [exact Ex | split; [exact F1 | split; [exact Es |]]].
    split; [rewrite <- !app_assoc; cbn [app]; reflexivity |].
    cbn [start_recorded]. split; [exact (start_failure_is_typed _ _ _ _ _ _ Es) |].
    eexists; reflexivity.
Qed.

End TaskStart.

Section Idempotence.




End Idempotence.

Section IdempotenceInstance.


End IdempotenceInstance.

(** ** CNPG: the names of the target volumes *)

Section TargetNames.

Lemma created_volumes_app a b :
  created_volumes (a ++ b) = created_volumes a ++ created_volumes b.
Proof. apply flat_map_app. Qed.

Lemma read_volumes_app a b : read_volumes (a ++ b) = read_volumes a ++ read_volumes b.
Proof. apply flat_map_app. Qed.

Lemma append_nonempty_differs (s t : string) : t <> "" -> (s ++ t)%string <> s.
Proof.
  intros Ht H. apply Ht. clear Ht.
  induction s as [|c s IH]; cbn in H; [exact H |].
  injection H as H. now apply IH.
Qed.

(** What one target volume creation appends: the only volume it
    creates is the target of its source. *)
Lemma create_target_creates env w s op pvc :
  exists r new st' lg,
    _create_target_pvc s op pvc env w
    = (r, {| store := st'; trace := trace w ++ new; logs := lg |})
    /\ (forall name, In name (created_volumes new) -> name = target_name env s op pvc)
    /\ (forall t, r = Ok t -> t = target_name env s op pvc).
Proof.
  destruct w as [st tr lg0].
  unfold _create_target_pvc, target_name, restore_target.
  destruct (is_restore_strategy s).
  - unfold restore_create_target_pvc. flow_unfold.
    repeat (step_call; flow_unfold).
    all: eexists _, _, _, _.
    all: (split; [apply world_eq';
                  first [ reflexivity
                        | rewrite <- !app_assoc; cbn [app]; reflexivity
                        | symmetry; apply app_nil_r ] |]).
    all: split; [cbn; intuition | intros t Ht; now inversion Ht].
  - unfold backup_create_target_pvc, resolve_snapshot_class_for_pvc. flow_unfold.
    repeat (first [step_call | step_patch
                  | match goal with
                    | |- context [match ?a with PUnit => _ | _ => _ end] => destruct a
                    | |- context [match ?o with Some _ => _ | None => _ end] => destruct o
                    end]; flow_unfold).
    all: eexists _, _, _, _.
    all: (split; [apply world_eq';
                  first [ reflexivity
                        | rewrite <- !app_assoc; cbn [app]; reflexivity
                        | symmetry; apply app_nil_r ] |]).
    all: split; [cbn; intuition | intros t Ht; now inversion Ht].
Qed.

Lemma clone_each_creates env s op l :
  forall w m, exists r new st' lg,
    CNPGOperationStrategy.clone_each s op l m env w
    = (r, {| store := st'; trace := trace w ++ new; logs := lg |})
    /\ (forall name, In name (created_volumes new) ->
                     exists src, In src (read_volumes new)
                                 /\ name = target_name env s op src).
Proof.
  induction l as [|pvc rest IH]; intros w m; cbn [CNPGOperationStrategy.clone_each].
  - destruct w as [st tr lg0]. eexists _, [], _, _. split.
    + unfold ret. cbn [trace]. now rewrite app_nil_r.
    + intros name [].
  - destruct w as [st tr lg0]. flow_unfold.
    step_call; flow_unfold.
    2:{ step_call; eexists _, _, _, _; (split; [reflexivity |]); intros name []. }
    match goal with
    | |- context [_create_target_pvc s op pvc env ?w1] =>
        destruct (create_target_creates env w1 s op pvc)
          as (r1 & new1 & st1 & lg1 & -> & Hc & _)
    end.
    cbn [trace] in *.
    destruct r1 as [clone_name | e].
    + match goal with
      | |- context [CNPGOperationStrategy.clone_each s op rest ?m' env ?w2] =>
          destruct (IH w2 m') as (r2 & new2 & st2 & lg2 & -> & Hc2)
      end.
      cbn [trace] in *.
      eexists r2, ([EReadPvc (Operation.namespace op) pvc] ++ new1 ++ new2), _, _.
      split; [apply world_eq'; now rewrite <- !app_assoc |].
      intros name Hin. rewrite !created_volumes_app in Hin. cbn [created_volumes flat_map app] in Hin.
      rewrite !read_volumes_app. cbn [read_volumes flat_map app].
      apply in_app_or in Hin as [Hin | Hin].
      * exists pvc. split; [now left | now apply Hc].
      * destruct (Hc2 name Hin) as (src & Hs & Hn). exists src. split; [| exact Hn].
        right. apply in_or_app. now right.
    + eexists (Raise e), ([EReadPvc (Operation.namespace op) pvc] ++ new1), _, _.
      split; [apply world_eq'; now rewrite <- !app_assoc |].
      intros name Hin. rewrite created_volumes_app in Hin. cbn [created_volumes flat_map app] in Hin.
      exists pvc. split; [now left | now apply Hc].
Qed.

Lemma cnpg_strategy op s :
  Operation.operator op = "cnpg" -> get_strategy op = Ok s ->
  is_zalando_strategy s = false
  /\ (Operation.is_restore_in_place op = true -> is_restore_strategy s = true).
Proof.
  intros Ho. unfold get_strategy, Operation.is_restore_in_place. rewrite Ho. cbn.
  destruct (String.eqb (Operation.action op) "restore");
    intros H; injection H as <-; split; try reflexivity; discriminate.
Qed.

Lemma cnpg_execute_creates env w s op :
  exists new,
    trace (snd (CNPGOperationStrategy.execute s op env w)) = trace w ++ new
    /\ (forall name, In name (created_volumes new) ->
                     exists src, In src (read_volumes new)
                                 /\ name = target_name env s op src).
Proof.
  destruct w as [st tr lg0].
  unfold CNPGOperationStrategy.execute, CNPGOperationStrategy._create_target_pvcs,
    _create_helper_statefulset.
  flow_unfold.
  repeat (step_call; flow_unfold).
  all: try (eexists; split;
            [ first [ reflexivity | rewrite <- !app_assoc; cbn [app]; reflexivity ]
            | intros name [] ]).
  match goal with
  | |- context [CNPGOperationStrategy.clone_each s op ?l ?m env ?w1] =>
      destruct (clone_each_creates env s op l w1 m) as (r & new & st1 & lg1 & -> & Hc)
  end.
  cbn [trace] in *.
  destruct r as [pvcs | e]; flow_unfold.
  2:{ eexists. split; [rewrite <- !app_assoc; cbn [app]; reflexivity |].
      intros name Hin. cbn [created_volumes flat_map app] in Hin.
      destruct (Hc name Hin) as (src & Hs & Hn). exists src. split; [| exact Hn].
      cbn [read_volumes flat_map app]. exact Hs. }
  repeat (step_call; flow_unfold).
  all: eexists; (split; [rewrite <- !app_assoc; cbn [app]; reflexivity |]).
  all: intros name Hin; fold (created_volumes) in Hin;
    change (In name (created_volumes (new ++ [ECreateStatefulSet (Operation.namespace op)
              (Operation.get_operation_id op (ocp_cluster env))
              (as_str a) pvcs]))) in Hin;
    rewrite created_volumes_app in Hin; cbn [created_volumes flat_map app] in Hin;
    rewrite app_nil_r in Hin;
    destruct (Hc name Hin) as (src & Hs & Hn); exists src; (split; [| exact Hn]);
    change (In src (read_volumes (new ++ [ECreateStatefulSet (Operation.namespace op)
              (Operation.get_operation_id op (ocp_cluster env))
              (as_str a) pvcs])));
    rewrite read_volumes_app; apply in_or_app; now left.
Qed.

End TargetNames.

Section TargetNamesClaim.

(** C5, as worded, fails: an in-place restore of a CNPG cluster creates
    its target volumes under the names of the source volumes. *)
Lemma cnpg_in_place_restore_targets_source_name : ~ cnpg_targets_are_disposable.
Proof.
  intros H.
  destruct (H cnpg_env [] cnpg_in_place_op CNPGRestore eq_refl eq_refl "pg1-1")
    as (src & Hsrc & suffix & Hne & Heq).
  - vm_compute. now left.
  - vm_compute in Hsrc.
    destruct Hsrc as [<- | [<- | []]]; cbn in Heq.
    + injection Heq as Heq. now apply Hne.
    + discriminate Heq.
Qed.

(** C5, amended.  Every volume that the provisioning of a CNPG
    Operation creates is the target of a source volume it read.  Unless
    the Operation is an in-place restore, the target is the source name
    followed by [-clone-] (backup) or [-restore-] (restore) and the
    clone id, hence a different name; for an in-place restore it is the
    source name itself. *)
Theorem cnpg_targets_follow_restore_mode
        (env : Env) (w : World) (op : Operation.t) (s : strategy) :
  Operation.operator op = "cnpg" ->
  get_strategy op = Ok s ->
  exists new,
    trace (snd (execute s op env w)) = trace w ++ new
    /\ forall name, In name (created_volumes new) ->
         exists src,
           In src (read_volumes new)
           /\ (Operation.is_restore_in_place op = false ->
               name = (src ++ (if is_restore_strategy s then "-restore-" else "-clone-")
                           ++ clone_id env)%string
               /\ name <> src)
           /\ (Operation.is_restore_in_place op = true -> name = src).
Proof.
  intros Ho Hg. destruct (cnpg_strategy op s Ho Hg) as [Hz Hr].
  unfold execute. rewrite Hz.
  destruct (cnpg_execute_creates env w s op) as (new & Ht & Hc).
  exists new. split; [exact Ht |].
  intros name Hin. destruct (Hc name Hin) as (src & Hs & ->).
  exists src. split; [exact Hs |].
  unfold target_name, restore_target. split.
  - intros Hi. rewrite Hi.
    destruct (is_restore_strategy s);
      (split; [reflexivity | apply append_nonempty_differs; discriminate]).
  - intros Hi. rewrite (Hr Hi), Hi. reflexivity.
Qed.

Lemma cnpg_targets_follow_restore_mode_witness :
  exists new,
    trace (snd (execute CNPGBackup cnpg_backup_op cnpg_env (start []))) = new
    /\ forall name, In name (created_volumes new) ->
         exists src, In src (read_volumes new)
                     /\ name = (src ++ "-clone-" ++ "20240101000000")%string
                     /\ name <> src.
Proof.
  destruct (cnpg_targets_follow_restore_mode cnpg_env (start []) cnpg_backup_op CNPGBackup
              eq_refl eq_refl) as (new & Ht & Hc).
  exists new. split; [exact Ht |].
  intros name Hin. destruct (Hc name Hin) as (src & Hs & Hd & _).
  exists src. split; [exact Hs |]. exact (Hd eq_refl).
Defined.

End TargetNamesClaim.

(** ** Instances of the statements *)

Section Instances.



Lemma admission_exclusive_witness :
  let out := BackupOperator.run backup_op quiet_env (start [rival_backup; started_backup]) in
  fst out = Ok tt
  /\ rejected "db" "op1" (trace (snd out))
  /\ ~ proceeds "db" (trace (snd out))
  /\ rewrites_only "db" "op1" [rival_backup; started_backup] (store (snd out)).
Proof.
  intros out.
  destruct (admission_exclusive quiet_env [rival_backup; started_backup] backup_op)
    as [H _].
  destruct (H eq_refl) as [Hrej _].
  destruct Hrej as (H1 & H2 & H3 & H4 & _).
  - exists rival_backup. split; [left; reflexivity |].
    repeat split; try reflexivity; try discriminate.
    + intros (p & Hp & Hin). vm_compute in Hp. injection Hp as <-.
      cbn in Hin. intuition discriminate.
    + intros (t & Ht & _). discriminate Ht.
  - repeat split; assumption.
Defined.

Lemma finalize_best_effort_witness :
  let out := BackupOperator.finalize in_place_restore_op restored_in_place
               (PyJob (CommvaultJobStatus.init (Some "Completed"))) quiet_env
               (start [restored_in_place]) in
  fst out = Ok tt
  /\ store (snd out) = [restored_in_place]
  /\ trace (snd out)
     = [EScaleStatefulSet "db" "pg1-db-ocp1" 0; EWaitStsPodsGone "db" "pg1-db-ocp1";
        EScaleZalandoCluster "db" "pg1" 1; EWaitPodReady "db" "pg1-0";
        EPatronictlRemove "db" "pg1" "pg1-0"; EScaleZalandoCluster "db" "pg1" 3].
Proof.
  intros out.
  destruct (finalize_best_effort quiet_env (start [restored_in_place]) in_place_restore_op
              restored_in_place (PyJob (CommvaultJobStatus.init (Some "Completed"))))
    as (H1 & H2 & (new & ls & Ht & _ & _ & _ & _ & _ & Hall) & _ & _ & H3).
  split; [exact H1 | split; [exact H2 |]].
  fold out in Ht. rewrite Ht.
  rewrite (Hall eq_refl (fun _ _ => ex_intro _ PUnit eq_refl)).
  rewrite (H3 eq_refl). reflexivity.
Defined.

Lemma patch_status_merges_fields_witness :
  let p1 : gmap string value := {[ "phase" := VStr "Running" ]} in
  let p2 : gmap string value := {[ "commvaultStatus" := VStr "Running" ]} in
  let w := start [started_backup] in
  let w1 := snd (K8sBackupApi.patch_status "db" "op1" p1 quiet_env w) in
  let w2 := snd (K8sBackupApi.patch_status "db" "op1" p2 quiet_env w1) in
  status_of w2 "db" "op1" = Some ((p1 ∪ p2) ∪ {[ "jobId" := VStr "J1" ]})
  /\ status_field w2 "db" "op1" "phase" = Some (VStr "Running")
  /\ status_field w2 "db" "op1" "commvaultStatus" = Some (VStr "Running")
  /\ status_field w2 "db" "op1" "jobId" = Some (VStr "J1").
Proof.
  intros p1 p2 w w1 w2.
  destruct (patch_status_merges_fields quiet_env w "db" "op1" p1 p2) as [Hkeep Hunion].
  destruct (Hunion {[ "jobId" := VStr "J1" ]}) as (Hu & H1 & H2).
  - intros h i. reflexivity.
  - reflexivity.
  - subst p1 p2. rewrite !dom_singleton_L. set_solver.
  - split; [exact Hu |]. split; [apply H1; reflexivity |].
    split; [apply H2; reflexivity |].
    fold w1 w2 in Hkeep. rewrite Hkeep by reflexivity. reflexivity.
Defined.

End Instances.

(** * Further properties *)

Section OperationInit.

Lemma lower_nonempty s : s <> "" -> PyStr.lower s <> "".
Proof. destruct s; [congruence | discriminate]. Qed.

Lemma or_default_nonempty x d : d <> "" -> Operation.or_default x d <> "".
Proof.
  intros Hd. unfold Operation.or_default.
  destruct x as [s|]; [| exact Hd]. destruct s; cbn; [exact Hd | discriminate].
Qed.

Lemma in_tuple_two x a b :
  PyStr.in_tuple x [a; b] = true <-> x = a \/ x = b.
Proof.
  unfold PyStr.in_tuple. cbn. rewrite !orb_true_iff, !String.eqb_eq. intuition discriminate.
Qed.

(** X1.  [Operation(name, namespace, spec, body)] accepts exactly the
    specs whose action, defaulted to backup and lower-cased, is backup
    or restore, and raises [ValueError] for all others.  An accepted
    Operation carries that action; a backup has blank restore fields and
    is never in place; a restore has a non-blank restore mode,
    out-of-place unless the spec names one, and is in place exactly when
    the lower-cased mode is "in-place". *)
Theorem operation_init_validates_action (name ns : string) (spec : OpSpec) :
  let action := requested_action spec in
  (action <> "backup" -> action <> "restore" ->
   Operation.init name ns spec
   = Raise (ValueError ("Unsupported action '" ++ action
                        ++ "'. Must be 'backup' or 'restore'.")))
  /\ (action = "backup" \/ action = "restore" ->
      exists op,
        Operation.init name ns spec = Ok op
        /\ Operation.action op = action
        /\ Operation.name op = name /\ Operation.namespace op = ns
        /\ Operation.cluster op = spec_cluster spec
        /\ Operation.operator op = requested_operator spec
        /\ (action = "backup" ->
            Operation.restore_date op = "" /\ Operation.restore_mode op = ""
            /\ Operation.is_restore_in_place op = false)
        /\ (action = "restore" ->
            Operation.restore_mode op
            = PyStr.lower (Operation.or_default (spec_restore_mode spec) "out-of-place")
            /\ Operation.restore_mode op <> ""
            /\ (spec_restore_mode spec = None ->
                Operation.restore_mode op = "out-of-place")
            /\ (Operation.is_restore_in_place op = true
                <-> Operation.restore_mode op = "in-place"))).
Proof.
  intros action. unfold Operation.init. fold (requested_action spec). fold action.
  split.
  - intros Hb Hr.
    destruct (PyStr.in_tuple action ["backup"; "restore"]) eqn:E.
    + apply in_tuple_two in E. tauto.
    + reflexivity.
  - intros Ha.
    assert (E : PyStr.in_tuple action ["backup"; "restore"] = true)
      by now apply in_tuple_two.
    rewrite E. cbn [negb]. eexists. split; [reflexivity |].
    cbn [Operation.action Operation.name Operation.namespace Operation.cluster
         Operation.operator Operation.restore_date Operation.restore_mode].
    do 5 (split; [reflexivity |]).
    split.
    + intros Hb. rewrite Hb. repeat split.
    + intros Hr. rewrite Hr. cbn [String.eqb Ascii.eqb Bool.eqb].
      split; [reflexivity |]. split.
      * apply lower_nonempty. now apply or_default_nonempty.
      * split; [intros ->; reflexivity |].
        unfold Operation.is_restore_in_place. cbn. apply String.eqb_eq.
Qed.

Lemma operation_init_validates_action_witness :
  exists op,
    Operation.init "op4" "db" mixed_case_spec = Ok op
    /\ Operation.action op = "restore"
    /\ Operation.operator op = "cnpg"
    /\ Operation.is_restore_in_place op = true.
Proof.
  destruct (operation_init_validates_action "op4" "db" mixed_case_spec) as [_ H].
  destruct H as (op & Hi & Ha & _ & _ & _ & Ho & _ & Hr).
  - right. reflexivity.
  - exists op. split; [exact Hi |]. split; [exact Ha |]. split; [exact Ho |].
    destruct (Hr eq_refl) as (Hm & _ & _ & Hip). apply Hip. rewrite Hm. reflexivity.
Defined.

End OperationInit.

Section StrategyDispatch.

(** X2.  [get_strategy] knows the operators "zalando" and "cnpg" and
    nothing else: for these it picks the class by the operator and by
    whether the action is "restore" (every other action is handled as a
    backup), for any other operator it raises [ValueError].  An
    unsupported operator is therefore not found when the Operation is
    built but in the admission, after the guard and the namespace
    prerequisites: when these went through, [run] raises the
    [ValueError], having made four calls and written no status. *)
Theorem get_strategy_knows_two_operators (env : Env) (st : list CR) (op : Operation.t) :
  let ns := Operation.namespace op in
  (Operation.operator op = "zalando" \/ Operation.operator op = "cnpg" ->
   exists s,
     get_strategy op = Ok s
     /\ is_zalando_strategy s = String.eqb (Operation.operator op) "zalando"
     /\ is_restore_strategy s = String.eqb (Operation.action op) "restore")
  /\ (Operation.operator op <> "zalando" -> Operation.operator op <> "cnpg" ->
      let e := ValueError ("Unknown operator/action: " ++ Operation.operator op
                           ++ "/" ++ Operation.action op) in
      get_strategy op = Raise e
      /\ (forall other p1 p2 p3,
             fst (K8sBackupApi.another_operation_in_progress ns (Operation.cluster op)
                    (Operation.name op) env (start st)) = Ok (false, other) ->
             answer env [EListOperations ns] (EEnsureServiceAccount ns) = Ok p1 ->
             answer env [EListOperations ns; EEnsureServiceAccount ns]
               (EEnsureCommvaultScc ns) = Ok p2 ->
             answer env [EListOperations ns; EEnsureServiceAccount ns;
                         EEnsureCommvaultScc ns]
               (EEnsureCommcellSecret ns) = Ok p3 ->
             let out := BackupOperator.run op env (start st) in
             fst out = Raise e
             /\ store (snd out) = st
             /\ trace (snd out)
                = [EListOperations ns; EEnsureServiceAccount ns;
                   EEnsureCommvaultScc ns; EEnsureCommcellSecret ns])).
Proof.
  intros ns. split.
  - intros [Ho | Ho]; unfold get_strategy; rewrite Ho; cbn;
      destruct (String.eqb (Operation.action op) "restore");
      eexists; repeat split.
  - intros Hz Hc e.
    assert (Hg : get_strategy op = Raise e).
    { unfold get_strategy.
      destruct (String.eqb (Operation.operator op) "zalando") eqn:E1;
        [apply String.eqb_eq in E1; contradiction |].
      destruct (String.eqb (Operation.operator op) "cnpg") eqn:E2;
        [apply String.eqb_eq in E2; contradiction |].
      reflexivity. }
    split; [exact Hg |].
    intros other p1 p2 p3 Hguard H1 H2 H3 out.
    assert (E : exists lg,
               out = (Raise e,
                      {| store := st;
                         trace := [EListOperations ns; EEnsureServiceAccount ns;
                                   EEnsureCommvaultScc ns; EEnsureCommcellSecret ns];
                         logs := lg |})).
    { subst out. unfold BackupOperator.run. unfold bind at 1.
      destruct (guard_eq env (start st) ns (Operation.cluster op) (Operation.name op))
        as (g0 & lg & Eg & _).
      fold ns in Eg |- *. rewrite Eg in Hguard |- *. cbn [fst] in Hguard. subst g0.
      cbn [fst snd start store trace app]. rewrite Hg.
      flow_unfold. cbn [app]. rewrite H1. flow_unfold. cbn [app]. rewrite H2.
      flow_unfold. cbn [app]. rewrite H3. flow_unfold. cbn [app].
      eexists. reflexivity. }
    destruct E as [lg ->]. repeat split.
Qed.

Lemma get_strategy_knows_two_operators_witness :
  fst (BackupOperator.run unknown_operator_op quiet_env (start []))
  = Raise (ValueError "Unknown operator/action: crunchy/backup")
  /\ trace (snd (BackupOperator.run unknown_operator_op quiet_env (start [])))
     = [EListOperations "db"; EEnsureServiceAccount "db";
        EEnsureCommvaultScc "db"; EEnsureCommcellSecret "db"].
Proof.
  destruct (get_strategy_knows_two_operators quiet_env [] unknown_operator_op) as [_ H].
  destruct H as [_ H]; [discriminate | discriminate |].
  destruct (H None PUnit PUnit PUnit eq_refl eq_refl eq_refl eq_refl) as (H1 & _ & H3).
  split; [exact H1 | exact H3].
Defined.

End StrategyDispatch.

Section JobStatusObject.

Import CommvaultJobStatus.

Lemma init_text raw :
  str (init raw) = match raw with
                   | Some s => if PyStr.truthy s then s else UNKNOWN
                   | None => UNKNOWN
                   end.
Proof. destruct raw as [[|c s]|]; reflexivity. Qed.

(** X3.  [CommvaultJobStatus(raw)] never holds an empty text: [None]
    and the empty string become "Unknown".  Wrapping the text of a
    status gives the status back.  A status is unknown exactly when it
    was built from [None], "" or "Unknown"; an unknown status is neither
    terminal nor a success and maps to phase Pending.  Under [__eq__] a
    status equals itself and the raw string of its text, and never
    [None]. *)
Theorem job_status_wraps_text (raw : option string) :
  let j := init raw in
  str j <> ""
  /\ init (Some (str j)) = j
  /\ (is_unknown j = true <-> raw = None \/ raw = Some "" \/ raw = Some "Unknown")
  /\ (is_unknown j = true ->
      is_terminal j = false /\ is_success j = false
      /\ map_phase_from_status (PyJob j) = "Pending")
  /\ job_ne j (PyJob j) = false
  /\ job_ne j (PyString (str j)) = false
  /\ job_ne j PyNone = true.
Proof.
  intros j. subst j.
  assert (Hne : str (init raw) <> "").
  { rewrite init_text. destruct raw as [[|c s]|]; cbn; discriminate. }
  split; [exact Hne |]. split.
  { destruct (init raw) as [t] eqn:E. cbn [str _status] in *.
    unfold init. destruct t; [contradiction | reflexivity]. }
  split.
  { unfold is_unknown. rewrite String.eqb_eq.
    change (_status (init raw)) with (str (init raw)). rewrite init_text.
    unfold UNKNOWN.
    destruct raw as [[|c s]|]; cbn [PyStr.truthy].
    - intuition.
    - split; [intros H; right; right; now rewrite H
             | intros [H | [H | H]]; congruence].
    - intuition. }
  split.
  { unfold is_unknown. rewrite String.eqb_eq. intros H.
    unfold is_terminal, is_success, lower, map_phase_from_status, pystatus_str, str.
    rewrite H. repeat split. }
  unfold job_ne, eqb, str. rewrite !String.eqb_refl. repeat split.
Qed.

(** X4.  [get_job_status_by_id] never raises.  It makes one query and
    touches nothing else; when the query fails it logs one line and
    returns the unknown status, which is not terminal and maps to phase
    Pending; when it succeeds it returns the wrapped answer. *)
Theorem get_job_status_never_raises (env : Env) (w : World) (job_id : string) :
  exists (j : JobStatus) (ls : list (string * string)),
    CommvaultApi.get_job_status_by_id job_id env w
    = (Ok j, {| store := store w; trace := trace w ++ [EGetJobStatus job_id];
                logs := logs w ++ ls |})
    /\ (forall p, answer env (trace w) (EGetJobStatus job_id) = Ok p ->
                  j = init (as_optstr p) /\ ls = [])
    /\ (forall e, answer env (trace w) (EGetJobStatus job_id) = Raise e ->
                  j = init None /\ length ls = 1%nat
                  /\ is_unknown j = true /\ is_terminal j = false
                  /\ map_phase_from_status (PyJob j) = "Pending").
Proof.
  unfold CommvaultApi.get_job_status_by_id, CommvaultApi.status_of_answer.
  destruct w as [st tr lg]. flow_unfold.
  destruct (answer env tr (EGetJobStatus job_id)) as [p | e]; cbn.
  - exists (init (as_optstr p)), []. rewrite app_nil_r.
    split; [reflexivity |]. split.
    + intros p0 H. injection H as <-. now split.
    + intros e H. discriminate H.
  - eexists (init None), [_]. split; [reflexivity |]. split.
    + intros p H. discriminate H.
    + intros e0 _. repeat split.
Qed.

End JobStatusObject.

Section RestoreDate.

Lemma of_value_string s t : PyInt.of_value (VStr s) = Ok t -> PyInt.of_string s = Some t.
Proof. cbn. destruct (PyInt.of_string s); [now intros [= ->] | discriminate]. Qed.

Lemma falsy_is_empty s : PyStr.truthy s = false -> s = "".
Proof. destruct s; [reflexivity | discriminate]. Qed.

Lemma create_restore_task_calls env w client start_time :
  exists r new ls,
    CommvaultApi.create_restore_task client start_time env w
    = (r, {| store := store w; trace := trace w ++ new; logs := logs w ++ ls |})
    /\ (new = [ESdkLookup client]
        \/ new = [ESdkLookup client; ECreateRestoreTask client start_time]
           /\ valid_restore_date start_time)
    /\ (forall job, r = Ok job ->
                    new = [ESdkLookup client; ECreateRestoreTask client start_time]).
Proof.
  destruct w as [st tr lg].
  unfold CommvaultApi.create_restore_task, CommvaultApi.wrap_failure, CommvaultApi.job_id_of.
  flow_unfold.
  repeat (first [progress cbn [is_commvault_exception] | step_call]; flow_unfold).
  all: eexists _, _, _.
  all: (split; [apply world_eq;
                first [ reflexivity
                      | rewrite <- !app_assoc; cbn [app]; reflexivity
                      | symmetry; apply app_nil_r ] |]).
  all: split; [| intros job H; first [reflexivity | discriminate H]].
  all: first [ left; reflexivity | right; split; [reflexivity |] ].
  all: unfold valid_restore_date;
    first [ left; now apply falsy_is_empty
          | right; eexists; split; [apply of_value_string; eassumption | assumption] ].
Qed.

Lemma start_restore_without_date env w s op :
  is_restore_strategy s = true ->
  ~ valid_restore_date (Operation.restore_date op) ->
  exists msg ls,
    start_commvault_task s op env w
    = (Raise (CommvaultApiException msg),
       {| store := store w;
          trace := trace w ++ [ESdkLookup (Operation.get_operation_id op (ocp_cluster env))];
          logs := logs w ++ ls |}).
Proof.
  intros Hs Hd.
  destruct (create_restore_task_calls env w
              (Operation.get_operation_id op (ocp_cluster env)) (Operation.restore_date op))
    as (r & new & ls & E & Hnew & Hok).
  assert (Es : start_commvault_task s op env w
               = (r, {| store := store w; trace := trace w ++ new; logs := logs w ++ ls |})).
  { unfold start_commvault_task. rewrite Hs. unfold bind, ask_ocp_cluster. exact E. }
  destruct Hnew as [-> | [_ Hv]]; [| contradiction].
  destruct r as [job | e].
  - specialize (Hok job eq_refl). discriminate Hok.
  - destruct (start_failure_is_typed _ _ _ _ _ _ Es) as [msg ->].
    exists msg, ls. exact Es.
Qed.

(** X5.  The restore date is passed to [int()] and
    [datetime.fromtimestamp]: unless it is empty or a decimal Unix time
    within the years 1 to 9999, [create_restore_task] fails after the
    lookup of the client, with a [CommvaultApiException], and the vendor
    is never asked to restore.  The date is first looked at there, so
    the admission of such a restore goes through its provisioning and
    then requests no vendor task. *)
Theorem restore_date_must_be_unix_time
        (env : Env) (st : list CR) (op : Operation.t) (s : strategy) :
  get_strategy op = Ok s ->
  is_restore_strategy s = true ->
  ~ valid_restore_date (Operation.restore_date op) ->
  (forall w, exists msg ls,
      start_commvault_task s op env w
      = (Raise (CommvaultApiException msg),
         {| store := store w;
            trace := trace w
                     ++ [ESdkLookup (Operation.get_operation_id op (ocp_cluster env))];
            logs := logs w ++ ls |}))
  /\ Forall (fun ev => is_task_request ev = false)
            (trace (snd (BackupOperator.run op env (start st)))).
Proof.
  intros Hg Hs Hd. split; [intros w; now apply start_restore_without_date |].
  destruct (run_task_follows_provisioning env st op s Hg)
    as [Hno | (w0 & w1 & started & w2 & tail & Hex & F1 & Hst & -> & Hrec)];
    [exact Hno |].
  destruct (start_restore_without_date env w1 s op Hs Hd) as (msg & ls & E).
  rewrite E in Hst. injection Hst as <- <-. cbn [trace].
  cbn [start_recorded] in Hrec. destruct Hrec as (_ & ts & ->).
  repeat first [assumption | apply Forall_app_2 | constructor | reflexivity].
Qed.

Lemma restore_date_must_be_unix_time_witness :
  Forall (fun ev => is_task_request ev = false)
         (trace (snd (BackupOperator.run dated_restore_op scale_fails_env (start []))))
  /\ In (EDeleteAllStsPvcs "db" "pg1")
        (trace (snd (BackupOperator.run dated_restore_op scale_fails_env (start [])))).
Proof.
  split.
  - apply (restore_date_must_be_unix_time scale_fails_env [] dated_restore_op ZalandoRestore);
      [reflexivity | reflexivity |].
    intros [H | (t & Hp & _)]; [discriminate H | vm_compute in Hp; discriminate Hp].
  - vm_compute. tauto.
Defined.

End RestoreDate.

Section StoreWrites.

Import K8sBackupApi.

Lemma rewrites_only_length ns name st st' :
  rewrites_only ns name st st' -> length st' = length st.
Proof. intros (g & -> & _). apply List.length_map. Qed.

Lemma rewrites_only_other ns name st st' ns' name' :
  rewrites_only ns name st st' ->
  (ns', name') <> (ns, name) ->
  List.find (same_key ns' name') st' = List.find (same_key ns' name') st.
Proof.
  intros (g & -> & Hother & Hkey) Hne.
  induction st as [|cr st IH]; [reflexivity |]. cbn [List.map List.find].
  destruct (same_key ns name cr) eqn:E.
  - apply same_key_iff in E. pose proof (Hkey cr E) as [Hn Hm]. destruct E as [En Em].
    assert (F : same_key ns' name' (g cr) = false /\ same_key ns' name' cr = false).
    { unfold same_key. rewrite Hn, Hm, En, Em.
      destruct (String.eqb ns ns') eqn:E1; destruct (String.eqb name name') eqn:E2;
        cbn; auto.
      apply String.eqb_eq in E1, E2. subst. contradiction. }
    destruct F as [-> ->]. exact IH.
  - rewrite Hother by (intros H; apply same_key_iff in H; congruence).
    destruct (same_key ns' name' cr); [reflexivity | exact IH].
Qed.

(** X6.  [patch_status] never raises and never creates or removes a
    resource: whatever the API answers it returns normally, having
    recorded one call, and the store differs from the old one at most in
    resources of the addressed key; the status of every other resource
    is as before.  When the addressed resource does not exist the store
    is unchanged. *)
Theorem patch_status_never_raises
        (env : Env) (w : World) (ns name : string) (fields : gmap string value) :
  let out := patch_status ns name fields env w in
  fst out = Ok tt
  /\ trace (snd out) = trace w ++ [EPatchStatus ns name fields]
  /\ rewrites_only ns name (store w) (store (snd out))
  /\ length (store (snd out)) = length (store w)
  /\ (forall ns' name', (ns', name') <> (ns, name) ->
                        status_of (snd out) ns' name' = status_of w ns' name')
  /\ (List.find (same_key ns name) (store w) = None -> store (snd out) = store w).
Proof.
  intros out. subst out.
  destruct (patch_status_effect env w ns name fields) as (w' & -> & Ht & Heff).
  cbn [fst snd]. pose proof (patch_effect_rewrites_only _ _ _ _ _ Heff) as Hr.
  split; [reflexivity |]. split; [exact Ht |]. split; [exact Hr |].
  split; [now apply (rewrites_only_length ns name) |]. split.
  - intros ns' name' Hne. unfold status_of.
    now rewrite (rewrites_only_other ns name _ _ ns' name' Hr Hne).
  - intros Hnone. destruct Heff as [H | current [x Hx] _ _]; [exact H |].
    rewrite Hnone in Hx. discriminate Hx.
Qed.

(** X7.  With no API fault, of two successive patches of one resource
    the later one wins on every field both name, the earlier one keeps
    the fields only it names, and a patch applied twice leaves the
    status it left the first time. *)
Theorem patch_status_later_wins
        (env : Env) (w : World) (ns name : string) (p1 p2 old : gmap string value) :
  no_faults env ->
  status_of w ns name = Some old ->
  let w1 := snd (patch_status ns name p1 env w) in
  let w2 := snd (patch_status ns name p2 env w1) in
  status_of w2 ns name = Some (p2 ∪ (p1 ∪ old))
  /\ (forall k v, p2 !! k = Some v -> status_field w2 ns name k = Some v)
  /\ (forall k v, p2 !! k = None -> p1 !! k = Some v ->
                  status_field w2 ns name k = Some v)
  /\ (p2 = p1 -> status_of w2 ns name = status_of w1 ns name).
Proof.
  intros Hnf Hold w1 w2.
  assert (H1 : status_of w1 ns name = Some (p1 ∪ old))
    by (now apply patch_status_applies).
  assert (H2 : status_of w2 ns name = Some (p2 ∪ (p1 ∪ old)))
    by (now apply patch_status_applies).
  split; [exact H2 |]. unfold status_field. rewrite H2. repeat split.
  - intros k v Hk. now apply lookup_union_Some_l.
  - intros k v Hn Hk. rewrite lookup_union_r by exact Hn. now apply lookup_union_Some_l.
  - intros ->. rewrite H1. f_equal.
    rewrite (assoc_L (∪)). now rewrite (idemp_L (∪)).
Qed.

Lemma patch_status_later_wins_witness :
  let w := start [started_backup] in
  let w1 := snd (patch_status "db" "op1" {[ "phase" := VStr "Running" ]} quiet_env w) in
  let w2 := snd (patch_status "db" "op1" {[ "phase" := VStr "Succeeded" ]} quiet_env w1) in
  status_field w2 "db" "op1" "phase" = Some (VStr "Succeeded")
  /\ status_field w2 "db" "op1" "jobId" = Some (VStr "J1").
Proof.
  intros w w1 w2.
  destruct (patch_status_later_wins quiet_env w "db" "op1"
              {[ "phase" := VStr "Running" ]} {[ "phase" := VStr "Succeeded" ]}
              {[ "jobId" := VStr "J1" ]}) as (Hs & Hw & _).
  - intros h i. reflexivity.
  - reflexivity.
  - split; [apply Hw; reflexivity |].
    fold w1 w2 in Hs. unfold status_field. rewrite Hs. reflexivity.
Defined.

End StoreWrites.

Section Deletion.

Import K8sBackupApi.

Lemma update_terminating_status ns name st ns' name' :
  cr_status <$> List.find (same_key ns' name') (update_cr ns name terminating st)
  = cr_status <$> List.find (same_key ns' name') st.
Proof.
  induction st as [|cr st IH]; [reflexivity |]. cbn [update_cr List.map List.find].
  fold (update_cr ns name terminating st).
  destruct (same_key ns name cr).
  - change (same_key ns' name' (terminating cr)) with (same_key ns' name' cr).
    destruct (same_key ns' name' cr); [reflexivity | exact IH].
  - destruct (same_key ns' name' cr); [reflexivity | exact IH].
Qed.

Lemma update_terminating_twice ns name st :
  update_cr ns name terminating (update_cr ns name terminating st)
  = update_cr ns name terminating st.
Proof.
  unfold update_cr. rewrite List.map_map. apply List.map_ext. intros cr.
  destruct (same_key ns name cr) eqn:E.
  - change (same_key ns name (terminating cr)) with (same_key ns name cr). rewrite E.
    unfold terminating at 1. rewrite deleting_terminating. now destruct cr.
  - now rewrite E.
Qed.

Lemma scan_items_skips_deleting cluster current items :
  forall other, scan_items cluster current items = (true, Some other) ->
  exists cr, In cr items /\ cr_name cr = other /\ deleting cr = false.
Proof.
  induction items as [|it rest IH]; cbn [scan_items]; [discriminate |].
  intros other.
  assert (Hrest : scan_items cluster current rest = (true, Some other) ->
                  exists cr, In cr (it :: rest) /\ cr_name cr = other /\ deleting cr = false).
  { intros H. destruct (IH _ H) as (cr & Hin & Hrem). exists cr. split; [now right | exact Hrem]. }
  destruct (String.eqb (cr_name it) current); [exact Hrest |].
  destruct (deleting it) eqn:Ed; [exact Hrest |].
  destruct (negb _); [exact Hrest |].
  destruct (phase_is_finished _); [exact Hrest |].
  intros [= <-]. exists it. split; [now left | auto].
Qed.

(** X8.  [delete_cr] never raises and never touches a status: it
    records one call and, at most, marks the resources of the addressed
    key as terminating.  With no API fault every resource of that key is
    terminating afterwards, a second deletion changes nothing, and the
    concurrency guard, which skips terminating resources, no longer
    reports that name as a rival. *)
Theorem delete_cr_marks_terminating (env : Env) (w : World) (ns name : string) :
  let out := delete_cr ns name env w in
  fst out = Ok tt
  /\ trace (snd out) = trace w ++ [EDeleteCr ns name]
  /\ rewrites_only ns name (store w) (store (snd out))
  /\ (forall ns' name', status_of (snd out) ns' name' = status_of w ns' name')
  /\ (no_faults env ->
      (forall cr, In cr (store (snd out)) -> has_key ns name cr -> being_deleted cr)
      /\ store (snd (delete_cr ns name env (snd out))) = store (snd out)
      /\ (forall env' cluster current,
             no_faults env' ->
             fst (another_operation_in_progress ns cluster current env'
                    (start (store (snd out))))
             <> Ok (true, Some name))).
Proof.
  intros out. subst out.
  destruct (delete_cr_effect env w ns name) as (w' & E & Ht & Hst).
  rewrite E. cbn [fst snd].
  split; [reflexivity |]. split; [exact Ht |]. split.
  { destruct Hst as [-> | ->]; [apply rewrites_only_refl |].
    apply update_cr_rewrites_only. intros cr H. exact H. }
  split.
  { intros ns' name'. unfold status_of.
    destruct Hst as [-> | ->]; [reflexivity |].
    change (option_map cr_status ?x) with (cr_status <$> x).
    apply update_terminating_status. }
  intros Hnf.
  assert (Hall : forall cr, In cr (store w') -> has_key ns name cr -> deleting cr = true).
  { intros cr Hin Hk. apply same_key_iff in Hk.
    destruct (List.existsb (same_key ns name) (store w)) eqn:Ex.
    - pose proof (delete_cr_no_fault env w ns name Hnf Ex) as Hs.
      rewrite E in Hs. cbn [snd] in Hs. rewrite Hs in Hin.
      unfold update_cr in Hin. apply in_map_iff in Hin as (cr0 & Hcr & _).
      destruct (same_key ns name cr0) eqn:E0.
      + subst cr. apply deleting_terminating.
      + subst cr. congruence.
    - exfalso. assert (Hs : store w' = store w).
      { destruct Hst as [H | H]; [exact H |]. rewrite H.
        unfold update_cr. rewrite <- (List.map_id (store w)) at 2.
        apply List.map_ext_in. intros a Ha.
        destruct (same_key ns name a) eqn:Ea; [| reflexivity].
        assert (Hx : List.existsb (same_key ns name) (store w) = true)
          by (apply existsb_exists; eauto).
        congruence. }
      rewrite Hs in Hin.
      assert (Hx : List.existsb (same_key ns name) (store w) = true)
        by (apply existsb_exists; eauto).
      congruence. }
  split; [intros cr Hin Hk; apply deleting_iff; now apply Hall |]. split.
  { destruct (delete_cr_effect env w' ns name) as (w'' & E2 & _ & Hst2).
    rewrite E2. cbn [snd]. destruct Hst2 as [H | H]; [exact H |]. rewrite H.
    unfold update_cr. rewrite <- (List.map_id (store w')) at 2.
    apply List.map_ext_in. intros cr Hin.
    destruct (same_key ns name cr) eqn:Ek; [| reflexivity].
    apply same_key_iff in Ek. pose proof (Hall cr Hin Ek) as Hd.
    unfold terminating. rewrite Hd. now destruct cr. }
  intros env' cluster current Hnf' Hg.
  rewrite (guard_listed env' (store w') ns cluster current (Hnf' _ _)) in Hg.
  cbn [fst] in Hg. injection Hg as Hg.
  apply scan_items_skips_deleting in Hg as (cr & Hin & Hn & Hd).
  apply filter_In in Hin as [Hin Hns]. apply String.eqb_eq in Hns.
  rewrite (Hall cr Hin) in Hd; [discriminate | split; assumption].
Qed.

Lemma delete_cr_marks_terminating_witness :
  let out := delete_cr "db" "op1" quiet_env (start [started_backup]) in
  (forall cr, In cr (store (snd out)) -> has_key "db" "op1" cr -> being_deleted cr)
  /\ store (snd (delete_cr "db" "op1" quiet_env (snd out))) = store (snd out).
Proof.
  intros out.
  destruct (delete_cr_marks_terminating quiet_env (start [started_backup]) "db" "op1")
    as (_ & _ & _ & _ & H).
  destruct H as (H1 & H2 & _); [intros h i; reflexivity |].
  split; [exact H1 | exact H2].
Defined.

End Deletion.

Section AdmissionErrors.

(** The admission up to the strategy dispatch, when the guard reports
    no conflict and the three prerequisites are ensured. *)
Lemma run_reaches_provisioning env st op other p1 p2 p3 :
  let ns := Operation.namespace op in
  fst (K8sBackupApi.another_operation_in_progress ns (Operation.cluster op)
         (Operation.name op) env (start st)) = Ok (false, other) ->
  answer env [EListOperations ns] (EEnsureServiceAccount ns) = Ok p1 ->
  answer env [EListOperations ns; EEnsureServiceAccount ns] (EEnsureCommvaultScc ns)
  = Ok p2 ->
  answer env [EListOperations ns; EEnsureServiceAccount ns; EEnsureCommvaultScc ns]
    (EEnsureCommcellSecret ns) = Ok p3 ->
  exists lg,
    BackupOperator.run op env (start st)
    = (let! s := lift (get_strategy op) in
       let! provisioned := attempt (execute s op) in
       match provisioned with
       | Raise e =>
           log "error" ("Failed to execute strategy for " ++ Operation.name op ++ ": "
                        ++ exn_str e) ;;;
           let! ts := get_utc_timestamp in
           K8sBackupApi.patch_status ns (Operation.name op)
             (BackupOperator.failed_fields "StrategyExecutionError"
                ("Strategy execution failure: " ++ exn_str e) ts)
       | Ok _ =>
           let! started := attempt (start_commvault_task s op) in
           match started with
           | Raise e =>
               log "error" ("Failed to start Commvault task for " ++ Operation.name op
                            ++ ": " ++ exn_str e) ;;;
               let! ts := get_utc_timestamp in
               K8sBackupApi.patch_status ns (Operation.name op)
                 (BackupOperator.failed_fields "CommvaultNoJob"
                    ("CreateTask failure: " ++ exn_str e) ts)
           | Ok job_id =>
               let! initial_status := CommvaultApi.get_job_status_by_id job_id in
               let! ts := get_utc_timestamp in
               K8sBackupApi.patch_status ns (Operation.name op)
                 (BackupOperator.started_fields op initial_status ts job_id)
           end
       end)
        env
        {| store := st;
           trace := [EListOperations ns; EEnsureServiceAccount ns;
                     EEnsureCommvaultScc ns; EEnsureCommcellSecret ns];
           logs := lg |}.
Proof.
  intros ns Hguard H1 H2 H3.
  unfold BackupOperator.run. unfold bind at 1.
  destruct (guard_eq env (start st) ns (Operation.cluster op) (Operation.name op))
    as (g0 & lg & Eg & _).
  fold ns in Eg |- *. rewrite Eg in Hguard |- *. cbn [fst] in Hguard. subst g0.
  cbn [fst snd start store trace app]. exists lg.
  unfold bind at 1, call_, bind at 1, call, ret. cbn [trace push store logs app].
  rewrite H1.
  unfold bind at 1, call_, bind at 1, call, ret. cbn [trace push store logs app].
  rewrite H2.
  unfold bind at 1, call_, bind at 1, call, ret. cbn [trace push store logs app].
  rewrite H3. reflexivity.
Qed.

(** X9.  [run] catches every exception of the strategy's [execute]:
    when the admission got as far as provisioning and [execute] raises
    [e], the run returns normally, requests no vendor task, and its last
    two calls are the clock and one status patch of phase Failed, reason
    StrategyExecutionError, the message carrying [str(e)], finishedAt
    the time read. *)
Theorem run_records_provisioning_failure
        (env : Env) (st : list CR) (op : Operation.t) (s : strategy)
        (other : option string) (p1 p2 p3 : payload) :
  let ns := Operation.namespace op in
  get_strategy op = Ok s ->
  fst (K8sBackupApi.another_operation_in_progress ns (Operation.cluster op)
         (Operation.name op) env (start st)) = Ok (false, other) ->
  answer env [EListOperations ns] (EEnsureServiceAccount ns) = Ok p1 ->
  answer env [EListOperations ns; EEnsureServiceAccount ns] (EEnsureCommvaultScc ns)
  = Ok p2 ->
  answer env [EListOperations ns; EEnsureServiceAccount ns; EEnsureCommvaultScc ns]
    (EEnsureCommcellSecret ns) = Ok p3 ->
  exists w0,
    store w0 = st
    /\ trace w0 = [EListOperations ns; EEnsureServiceAccount ns;
                   EEnsureCommvaultScc ns; EEnsureCommcellSecret ns]
    /\ forall e w1,
        execute s op env w0 = (Raise e, w1) ->
        let out := BackupOperator.run op env (start st) in
        let failed :=
          BackupOperator.failed_fields "StrategyExecutionError"
            ("Strategy execution failure: " ++ exn_str e) (now env (trace w1)) in
        fst out = Ok tt
        /\ trace (snd out) = trace w1 ++ [ENow; EPatchStatus ns (Operation.name op) failed]
        /\ patch_effect failed ns (Operation.name op) (store w1) (store (snd out))
        /\ Forall (fun ev => is_task_request ev = false) (trace (snd out)).
Proof.
  intros ns Hg Hguard H1 H2 H3.
  destruct (run_reaches_provisioning env st op other p1 p2 p3 Hguard H1 H2 H3) as [lg E].
  fold ns in E. eexists. split; [| split]; [| | intros e w1 Hex out failed].
  3:{ assert (Eo : exists st' lg',
                 out = (Ok tt, {| store := st';
                                  trace := trace w1
                                           ++ [ENow; EPatchStatus ns (Operation.name op) failed];
                                  logs := lg' |})
                 /\ patch_effect failed ns (Operation.name op) (store w1) st').
      { subst out. rewrite E. rewrite Hg. unfold lift, bind at 1, ret.
        unfold bind at 1, attempt. rewrite Hex.
        unfold bind at 1, log. unfold bind at 1, get_utc_timestamp.
        match goal with
        | |- context [K8sBackupApi.patch_status ?n ?m ?f env ?w] =>
            destruct (patch_status_effect env w n m f) as (w' & Ep & Tp & Fp);
            rewrite Ep
        end.
        destruct w' as [st' tr' lg']. unfold push, push_log in *.
        cbn [fst snd trace store logs] in *. subst tr'.
        exists st', lg'. rewrite <- app_assoc. cbn [app]. split; [reflexivity | exact Fp]. }
      destruct Eo as (st' & lg' & -> & Fp). cbn [fst snd trace store].
      split; [reflexivity |]. split; [reflexivity |]. split; [exact Fp |].
      destruct (rnt_execute s op env
                  {| store := st;
                     trace := [EListOperations ns; EEnsureServiceAccount ns;
                               EEnsureCommvaultScc ns; EEnsureCommcellSecret ns];
                     logs := lg |}) as (new & Hn & Fn).
      rewrite Hex in Hn. cbn [snd trace] in Hn. rewrite Hn.
      repeat first [assumption | apply Forall_app_2 | constructor | reflexivity]. }
  all: reflexivity.
Qed.

Lemma run_records_provisioning_failure_witness :
  let out := BackupOperator.run backup_op quiet_env (start [started_backup]) in
  fst out = Ok tt
  /\ status_field (snd out) "db" "op1" "reason" = Some (VStr "StrategyExecutionError")
  /\ Forall (fun ev => is_task_request ev = false) (trace (snd out)).
Proof.
  intros out.
  destruct (run_records_provisioning_failure quiet_env [started_backup] backup_op
              ZalandoBackup None PUnit PUnit PUnit eq_refl eq_refl eq_refl eq_refl eq_refl)
    as (w0 & Hs & Ht & H).
  destruct w0 as [st0 tr0 lg0]. cbn in Hs, Ht. subst st0 tr0.
  destruct (execute ZalandoBackup backup_op quiet_env
              {| store := [started_backup];
                 trace := [EListOperations "db"; EEnsureServiceAccount "db";
                           EEnsureCommvaultScc "db"; EEnsureCommcellSecret "db"];
                 logs := lg0 |}) as [r w1] eqn:E.
  assert (Hr : r = Raise (PermanentError "")).
  { apply (f_equal fst) in E. cbn in E. exact (eq_sym E). }
  subst r. destruct (H _ _ eq_refl) as (Hf & _ & _ & Hno).
  split; [exact Hf |]. split; [vm_compute; reflexivity | exact Hno].
Defined.

End AdmissionErrors.

Section PrerequisiteErrors.

(** X10.  The three prerequisites of the workload namespace are
    ensured outside any [try]: when the guard reported no conflict and
    one of them raises, [run] raises that very exception, having made
    no further call, and the status of the Operation is not written. *)
Theorem run_prerequisite_failure_escapes
        (env : Env) (st : list CR) (op : Operation.t) (other : option string) (e : exn) :
  let ns := Operation.namespace op in
  let sa := EEnsureServiceAccount ns in
  let scc := EEnsureCommvaultScc ns in
  let secret := EEnsureCommcellSecret ns in
  fst (K8sBackupApi.another_operation_in_progress ns (Operation.cluster op)
         (Operation.name op) env (start st)) = Ok (false, other) ->
  forall failed : list event,
    (failed = [sa] /\ answer env [EListOperations ns] sa = Raise e)
    \/ (failed = [sa; scc]
        /\ (exists p, answer env [EListOperations ns] sa = Ok p)
        /\ answer env [EListOperations ns; sa] scc = Raise e)
    \/ (failed = [sa; scc; secret]
        /\ (exists p, answer env [EListOperations ns] sa = Ok p)
        /\ (exists p, answer env [EListOperations ns; sa] scc = Ok p)
        /\ answer env [EListOperations ns; sa; scc] secret = Raise e) ->
    let out := BackupOperator.run op env (start st) in
    fst out = Raise e
    /\ store (snd out) = st
    /\ trace (snd out) = EListOperations ns :: failed.
Proof.
  intros ns sa scc secret Hguard failed Hfail out.
  assert (E : exists lg,
             out = (Raise e, {| store := st; trace := EListOperations ns :: failed;
                                logs := lg |})).
  { subst out. unfold BackupOperator.run. unfold bind at 1.
    destruct (guard_eq env (start st) ns (Operation.cluster op) (Operation.name op))
      as (g0 & lg & Eg & _).
    fold ns in Eg |- *. rewrite Eg in Hguard |- *. cbn [fst] in Hguard. subst g0.
    cbn [fst snd start store trace app]. exists lg.
    fold sa scc secret.
    destruct Hfail as [[-> H1] | [(-> & [p1 H1] & H2) | (-> & [p1 H1] & [p2 H2] & H3)]].
    - unfold bind at 1, call_, bind at 1, call, ret. cbn [trace push store logs app].
      rewrite H1. reflexivity.
    - unfold bind at 1, call_, bind at 1, call, ret. cbn [trace push store logs app].
      rewrite H1.
      unfold bind at 1, call_, bind at 1, call, ret. cbn [trace push store logs app].
      rewrite H2. reflexivity.
    - unfold bind at 1, call_, bind at 1, call, ret. cbn [trace push store logs app].
      rewrite H1.
      unfold bind at 1, call_, bind at 1, call, ret. cbn [trace push store logs app].
      rewrite H2.
      unfold bind at 1, call_, bind at 1, call, ret. cbn [trace push store logs app].
      rewrite H3. reflexivity. }
  destruct E as [lg ->]. repeat split.
Qed.

Lemma run_prerequisite_failure_escapes_witness :
  let out := BackupOperator.run backup_op scc_forbidden_env (start [started_backup]) in
  fst out = Raise (ApiException 403 "Forbidden")
  /\ store (snd out) = [started_backup]
  /\ trace (snd out)
     = [EListOperations "db"; EEnsureServiceAccount "db"; EEnsureCommvaultScc "db"].
Proof.
  apply (run_prerequisite_failure_escapes scc_forbidden_env [started_backup] backup_op None
           (ApiException 403 "Forbidden") eq_refl
           [EEnsureServiceAccount "db"; EEnsureCommvaultScc "db"]).
  right. left. split; [reflexivity |]. split; [exists PUnit; reflexivity | reflexivity].
Defined.

End PrerequisiteErrors.

Section SnapshotClass.

Lemma resolve_snapshot_class_cases env w ns cr_name pvc :
  let resolve := EResolveSnapshotClass ns pvc in
  match answer env (trace w) resolve with
  | Raise e =>
      resolve_snapshot_class_for_pvc ns cr_name pvc env w
      = (Raise e, {| store := store w; trace := trace w ++ [resolve]; logs := logs w |})
  | Ok p =>
      match named_class p with
      | Some c =>
          resolve_snapshot_class_for_pvc ns cr_name pvc env w
          = (Ok c, {| store := store w; trace := trace w ++ [resolve]; logs := logs w |})
      | None =>
          let failed : gmap string value :=
            {[ "phase" := VStr "Failed"; "reason" := VStr (fst (failure_of p));
               "message" := VStr (snd (failure_of p)) ]} in
          exists st' lg',
            resolve_snapshot_class_for_pvc ns cr_name pvc env w
            = (Raise (PermanentError (snd (failure_of p))),
               {| store := st';
                  trace := trace w ++ [resolve; EPatchStatus ns cr_name failed];
                  logs := lg' |})
            /\ patch_effect failed ns cr_name (store w) st'
      end
  end.
Proof.
  intros resolve. subst resolve.
  destruct w as [st tr lg]. cbn [trace store logs].
  assert (Hstep : resolve_snapshot_class_for_pvc ns cr_name pvc env
                    {| store := st; trace := tr; logs := lg |}
                  = match answer env tr (EResolveSnapshotClass ns pvc) with
                    | Ok p =>
                        (let '(cls, reason, message) :=
                           match p with
                           | PSnapClass n r m => (n, r, m)
                           | _ => (as_optstr p, EmptyString, EmptyString)
                           end in
                         match cls with
                         | Some c =>
                             if PyStr.truthy c then ret c
                             else
                               log "error" message ;;;
                               K8sBackupApi.patch_status ns cr_name
                                 {[ "phase" := VStr "Failed"; "reason" := VStr reason;
                                    "message" := VStr message ]} ;;;
                               raise (PermanentError message)
                         | None =>
                             log "error" message ;;;
                             K8sBackupApi.patch_status ns cr_name
                               {[ "phase" := VStr "Failed"; "reason" := VStr reason;
                                  "message" := VStr message ]} ;;;
                             raise (PermanentError message)
                         end) env
                          {| store := st; trace := tr ++ [EResolveSnapshotClass ns pvc];
                             logs := lg |}
                    | Raise e =>
                        (Raise e,
                         {| store := st; trace := tr ++ [EResolveSnapshotClass ns pvc];
                            logs := lg |})
                    end).
  { unfold resolve_snapshot_class_for_pvc. unfold bind at 1, call.
    cbn [trace store logs push].
    now destruct (answer env tr (EResolveSnapshotClass ns pvc)). }
  destruct (answer env tr (EResolveSnapshotClass ns pvc)) as [p | e];
    [| exact Hstep].
  assert (Hp : forall reason message w0,
             store w0 = st -> trace w0 = tr ++ [EResolveSnapshotClass ns pvc] ->
             let failed : gmap string value :=
               {[ "phase" := VStr "Failed"; "reason" := VStr reason;
                  "message" := VStr message ]} in
             exists st' lg',
               (K8sBackupApi.patch_status ns cr_name failed ;;;
                @raise string (PermanentError message)) env w0
               = (Raise (PermanentError message),
                  {| store := st';
                     trace := tr ++ [EResolveSnapshotClass ns pvc;
                                     EPatchStatus ns cr_name failed];
                     logs := lg' |})
               /\ patch_effect failed ns cr_name st st').
  { intros reason message w0 Hs Ht failed. unfold bind.
    destruct (patch_status_effect env w0 ns cr_name failed) as (w' & -> & T & F).
    destruct w' as [st' tr' lg']. cbn [trace store] in *. subst tr'.
    rewrite Ht, <- app_assoc. cbn [app]. exists st', lg'.
    rewrite Hs in F. split; [reflexivity | exact F]. }
  destruct p as [| s | n | n | [s|] | l | a b | [c|] r m];
    cbn [named_class as_optstr failure_of fst snd] in *.
  all: try (cbv zeta; rewrite Hstep; unfold bind at 1, log; apply Hp; reflexivity).
  all: match goal with
       | |- context [PyStr.truthy ?x] =>
           destruct (PyStr.truthy x);
           [exact Hstep
           | cbv zeta; rewrite Hstep; unfold bind at 1, log; apply Hp; reflexivity]
       end.
Qed.

(** X11.  [resolve_snapshot_class_for_pvc] asks the resolver once.  If
    the resolver names a non-empty class it returns that class and
    writes nothing.  If it names none it patches the Operation to phase
    Failed with the resolver's reason and message and raises
    [PermanentError] with that message.  It never returns an empty
    class name. *)
Theorem snapshot_class_failure_is_permanent
        (env : Env) (w : World) (ns cr_name pvc : string) :
  let out := resolve_snapshot_class_for_pvc ns cr_name pvc env w in
  let resolve := EResolveSnapshotClass ns pvc in
  (forall cls reason message,
      answer env (trace w) resolve = Ok (PSnapClass (Some cls) reason message) ->
      cls <> "" ->
      out = (Ok cls, {| store := store w; trace := trace w ++ [resolve];
                        logs := logs w |}))
  /\ (forall cls reason message,
         answer env (trace w) resolve = Ok (PSnapClass cls reason message) ->
         cls = None \/ cls = Some "" ->
         let failed : gmap string value :=
           {[ "phase" := VStr "Failed"; "reason" := VStr reason;
              "message" := VStr message ]} in
         fst out = Raise (PermanentError message)
         /\ trace (snd out) = trace w ++ [resolve; EPatchStatus ns cr_name failed]
         /\ patch_effect failed ns cr_name (store w) (store (snd out)))
  /\ (forall cls, fst out = Ok cls -> cls <> "").
Proof.
  intros out resolve. subst out resolve.
  pose proof (resolve_snapshot_class_cases env w ns cr_name pvc) as H.
  cbv zeta in H.
  split; [| split].
  - intros cls reason message Ha Hne. rewrite Ha in H.
    cbn [named_class failure_of fst snd PyStr.truthy] in H.
    destruct cls; [contradiction | exact H].
  - intros cls reason message Ha Hc failed. rewrite Ha in H.
    destruct Hc as [-> | ->]; cbn [named_class failure_of fst snd PyStr.truthy] in H;
      destruct H as (st' & lg' & -> & F); repeat split; exact F.
  - intros cls Hok.
    destruct (answer env (trace w) (EResolveSnapshotClass ns pvc)) as [p | e].
    + destruct (named_class p) as [c |] eqn:En.
      * rewrite H in Hok. injection Hok as <-.
        destruct p as [| s | n | n | [s|] | l | a b | [s|] r m];
          cbn [named_class as_optstr] in En; try discriminate En;
          destruct s; cbn in En; try discriminate En; injection En as <-; discriminate.
      * destruct H as (st' & lg' & E & _). rewrite E in Hok. discriminate Hok.
    + rewrite H in Hok. discriminate Hok.
Qed.

Lemma snapshot_class_failure_is_permanent_witness :
  fst (resolve_snapshot_class_for_pvc "db" "op1" "pgdata-pg1-0" ready_env (start []))
  = Ok "csi-snapclass".
Proof.
  destruct (snapshot_class_failure_is_permanent ready_env (start []) "db" "op1" "pgdata-pg1-0")
    as (H & _).
  rewrite (H "csi-snapclass" "" "" eq_refl); [reflexivity | discriminate].
Defined.

End SnapshotClass.
